(** * DashboardView: the paginated, date-sorted expense feed

    Shallow embedding of [src/components/dashboard-view.tsx].

    The component keeps four [useState] cells ([expenses], [isLoading],
    [page], [hasMore]), reads [token] and [logout] from the auth context and
    defines five callbacks: [loadExpenses], [handleAddExpense],
    [handleUpdateExpense], [handleDeleteExpense] and [handleScroll].

    Every callback is modelled as one atomic transition: the outcome of the
    network call it awaits is an input of the transition (a [Promise] that is
    either resolved with a value or rejected), and everything the callback
    does to the outside world (API calls, [logout], [router.push], toasts,
    [console.error]) is recorded, in order, in a list of [Event]s. *)

From Stdlib Require Import ZArith Lia Ascii.
From stdpp Require Import base tactics option list strings sorting pretty.

Local Open Scope string_scope.
Local Open Scope list_scope.
Local Open Scope Z_scope.

(** ** Data *)

(** Modelled from the spec: the [Expense] type is declared in [@/types],
    which is not part of the sources at hand.  The component reads the fields
    [_id], [description], [category] and [date].  [date] is a calendar date
    that the comparator reads through [new Date(e.date).getTime()]; the field
    below holds that millisecond count.  [amount] is carried along in
    hundredths and never inspected.  A string stands for its sequence of code
    units. *)
Record Expense : Type := {
  _id : string;
  description : string;
  amount : Z;
  category : string;
  date : Z
}.

(** [Omit<Expense, '_id'>], the argument of [handleAddExpense]. *)
Record ExpenseData : Type := {
  new_description : string;
  new_amount : Z;
  new_category : string;
  new_date : Z
}.

Global Instance Expense_eq_dec : EqDecision Expense.
Proof. solve_decision. Defined.

Global Instance ExpenseData_eq_dec : EqDecision ExpenseData.
Proof. solve_decision. Defined.

(** The bearer token of the auth context: a string or [null]. *)
Definition Token : Type := option string.

(** JavaScript truthiness of a token: [null] and the empty string are falsy. *)
Definition truthy (t : Token) : bool :=
  match t with
  | Some s => negb (String.eqb s "")
  | None => false
  end.

(** The settled outcome of an awaited call. *)
Inductive Promise (A : Type) : Type :=
| Resolved (a : A)
| Rejected.
Arguments Resolved {A} a.
Arguments Rejected {A}.

Definition PAGE_SIZE : nat := 10.

(** What the component does to its collaborators. *)
Inductive Event : Type :=
| call_fetchExpenses (token : Token) (page : nat) (pageSize : nat)
| call_addExpense (newExpenseData : ExpenseData) (token : Token)
| call_updateExpense (updatedExpenseData : Expense) (token : Token)
| call_deleteExpense (expenseId : string) (token : Token)
| call_logout
| router_push (path : string)
| toast (title descr : string) (destructive : bool)
| console_error (msg : string).

Global Instance Event_eq_dec : EqDecision Event.
Proof. solve_decision. Defined.

(** ** [Array.prototype.sort]

    The sort is stable: elements that the comparator does not order keep
    their relative position.  For a comparator that is a total preorder the
    stable result is unique, so it is given here by insertion from the right:
    an element is placed in front of the first element it does not have to
    follow.  [sort] works in place, but the component only ever sorts an
    array it has just built ([[...prev, ...data]], [[newExpense, ...prev]],
    [prev.map(...)]), so the previous state is never touched and a function
    from lists to lists loses nothing. *)
Section ArraySort.
Context {A : Type} (cmp : A → A → Z).

Fixpoint sort_insert (x : A) (l : list A) : list A :=
  match l with
  | [] => [x]
  | y :: l' => if cmp x y <=? 0 then x :: y :: l' else y :: sort_insert x l'
  end.

Fixpoint Array_sort (l : list A) : list A :=
  match l with
  | [] => []
  | x :: l' => sort_insert x (Array_sort l')
  end.
End ArraySort.

(** [(a, b) => new Date(b.date).getTime() - new Date(a.date).getTime()] *)
Definition byDateDesc (a b : Expense) : Z := date b - date a.

(** The comparison [sort()] uses when it is given no comparator: strings are
    compared code unit by code unit. *)
Definition defaultCompare (x y : string) : Z :=
  match String.compare x y with
  | Lt => -1
  | Eq => 0
  | Gt => 1
  end.

(** [[...new Set(xs)]]: the distinct elements in order of first occurrence. *)
Definition Set_add {A} `{EqDecision A} (acc : list A) (x : A) : list A :=
  if decide (x ∈ acc) then acc else acc ++ [x].

Definition new_Set {A} `{EqDecision A} (xs : list A) : list A :=
  foldl Set_add [] xs.

(** ** Component state *)

(** The four [useState] cells. *)
Record Cells : Type := {
  expenses : list Expense;
  isLoading : bool;
  page : nat;
  hasMore : bool
}.

(** What the memoised [loadExpenses] closes over.  Its dependency array is
    [[token, logout, router]]: the callback is rebuilt only when one of those
    changes, so the [page] and [hasMore] it reads are the ones of the render
    in which it was last rebuilt. *)
Record Captured : Type := {
  c_token : Token;
  c_page : nat;
  c_hasMore : bool
}.

Record View : Type := {
  cells : Cells;
  token : Token;
  memo_loadExpenses : Captured
}.

Definition capture (t : Token) (s : Cells) : Captured :=
  {| c_token := t; c_page := page s; c_hasMore := hasMore s |}.

(** ** A state-and-trace monad for callback bodies *)

Definition M (A : Type) : Type := Cells → A * Cells * list Event.

Global Instance M_ret : MRet M := λ A a s, (a, s, []).
Global Instance M_bind : MBind M := λ A B f m s,
  let '(a, s1, t1) := m s in
  let '(b, s2, t2) := f a s1 in
  (b, s2, t1 ++ t2).

Definition emit (e : Event) : M unit := λ s, ((), s, [e]).
Definition skip : M unit := mret ().

(** An awaited call: the request is issued, the settled outcome comes back. *)
Definition await {A} (request : Event) (outcome : Promise A) : M (Promise A) :=
  emit request ;; mret outcome.

Definition setExpenses (f : list Expense → list Expense) : M unit := λ s,
  ((), {| expenses := f (expenses s); isLoading := isLoading s;
          page := page s; hasMore := hasMore s |}, []).
Definition setIsLoading (b : bool) : M unit := λ s,
  ((), {| expenses := expenses s; isLoading := b;
          page := page s; hasMore := hasMore s |}, []).
Definition setPage (f : nat → nat) : M unit := λ s,
  ((), {| expenses := expenses s; isLoading := isLoading s;
          page := f (page s); hasMore := hasMore s |}, []).
Definition setHasMore (b : bool) : M unit := λ s,
  ((), {| expenses := expenses s; isLoading := isLoading s;
          page := page s; hasMore := b |}, []).
Definition getExpenses : M (list Expense) := λ s, (expenses s, s, []).

(** The double quote of the toast texts. *)
Definition dq : string := String "034"%char "".
Definition quoted (s : string) : string := dq +:+ s +:+ dq.

(** ** The callbacks *)

Definition loadExpenses (c : Captured) (outcome : Promise (list Expense)) : M unit :=
  if truthy (c_token c) && c_hasMore c then
    setIsLoading true ;;
    r ← await (call_fetchExpenses (c_token c) (c_page c) PAGE_SIZE) outcome ;
    match r with
    | Resolved data =>
        (if (length data <? PAGE_SIZE)%nat then setHasMore false else skip) ;;
        setExpenses (λ prevExpenses, Array_sort byDateDesc (prevExpenses ++ data)) ;;
        setPage (λ prevPage, (prevPage + 1)%nat)
    | Rejected =>
        emit (console_error "Failed to fetch expenses:") ;;
        emit call_logout ;;
        emit (router_push "/login")
    end ;;
    setIsLoading false
  else if negb (truthy (c_token c)) then
    setIsLoading false
  else skip.

Definition handleAddExpense (token : Token) (newExpenseData : ExpenseData)
    (outcome : Promise Expense) : M unit :=
  if negb (truthy token) then
    emit (console_error "No auth token found")
  else
    r ← await (call_addExpense newExpenseData token) outcome ;
    match r with
    | Resolved newExpense =>
        setExpenses (λ prev, Array_sort byDateDesc (newExpense :: prev)) ;;
        emit (toast "Expense Added"
                (quoted (description newExpense) +:+ " has been added.") false)
    | Rejected =>
        emit (console_error "Failed to add expense:") ;;
        emit (toast "Error" "Failed to add expense." true)
    end.

Definition handleUpdateExpense (token : Token) (updatedExpenseData : Expense)
    (outcome : Promise Expense) : M unit :=
  if negb (truthy token) then
    emit (console_error "No auth token found")
  else
    r ← await (call_updateExpense updatedExpenseData token) outcome ;
    match r with
    | Resolved updatedExpense =>
        setExpenses (λ prev, Array_sort byDateDesc
          ((λ exp, if decide (_id exp = _id updatedExpense)
                   then updatedExpense else exp) <$> prev)) ;;
        emit (toast "Expense Updated"
                (quoted (description updatedExpense) +:+ " has been updated.") false)
    | Rejected =>
        emit (console_error "Failed to update expense:") ;;
        emit (toast "Error" "Failed to update expense." true)
    end.

Definition handleDeleteExpense (token : Token) (expenseId : string)
    (outcome : Promise unit) : M unit :=
  if negb (truthy token) then
    emit (console_error "No auth token found")
  else
    es ← getExpenses ;
    let expenseToDelete := list_find (λ e, _id e = expenseId) es in
    r ← await (call_deleteExpense expenseId token) outcome ;
    match r with
    | Resolved _ =>
        setExpenses (λ prev, filter (λ exp, _id exp ≠ expenseId) prev) ;;
        emit (toast "Expense Deleted"
                (quoted (from_option (λ p, description p.2) "undefined" expenseToDelete)
                   +:+ " has been deleted.") false)
    | Rejected =>
        emit (console_error "Failed to delete expense:") ;;
        emit (toast "Error" "Failed to delete expense." true)
    end.

(** [useMemo(() => [...new Set(expenses.map(e => e.category))].sort(), [expenses])] *)
Definition allCategories (expenses : list Expense) : list string :=
  Array_sort defaultCompare (new_Set (category <$> expenses)).

(** ** Renders, the mount effect and the scroll trigger *)

(** Running a callback body on the current view.  The handlers and
    [handleScroll] are rebuilt at every render, so they see the current
    cells; [loadExpenses] keeps what it captured. *)
Definition run_on (v : View) (m : M unit) : View * list Event :=
  let '(_, s, t) := m (cells v) in
  ({| cells := s; token := token v; memo_loadExpenses := memo_loadExpenses v |}, t).

(** [handleScroll], whose dependency array [[isLoading, hasMore, loadExpenses]]
    makes it read the current [isLoading] and [hasMore]; the [loadExpenses] it
    calls is the memoised one. *)
Definition handleScroll (innerHeight scrollTop offsetHeight : Z)
    (outcome : Promise (list Expense)) (v : View) : View * list Event :=
  if (innerHeight + scrollTop >=? offsetHeight - 100)
     && negb (isLoading (cells v)) && hasMore (cells v)
  then run_on v (loadExpenses (memo_loadExpenses v) outcome)
  else (v, []).

(** A render in which a dependency of [loadExpenses] has changed (the auth
    context delivered a new token or a new [logout]): [useCallback] rebuilds
    the callback over the cells of that render and
    [useEffect(() => { loadExpenses(); }, [loadExpenses])] calls it. *)
Definition depsChanged (t : Token) (outcome : Promise (list Expense))
    (v : View) : View * list Event :=
  let c := capture t (cells v) in
  run_on {| cells := cells v; token := t; memo_loadExpenses := c |}
         (loadExpenses c outcome).

(** The initial values of the [useState] cells. *)
Definition initialCells : Cells :=
  {| expenses := []; isLoading := true; page := 1; hasMore := true |}.

(** First render followed by the effect. *)
Definition mount (t : Token) (outcome : Promise (list Expense)) : View * list Event :=
  depsChanged t outcome
    {| cells := initialCells; token := t; memo_loadExpenses := capture t initialCells |}.

(** What can happen to a mounted view, each with the outcome of the request
    it may issue. *)
Inductive Op : Type :=
| Scroll (innerHeight scrollTop offsetHeight : Z) (outcome : Promise (list Expense))
| Add (newExpenseData : ExpenseData) (outcome : Promise Expense)
| Update (updatedExpenseData : Expense) (outcome : Promise Expense)
| Delete (expenseId : string) (outcome : Promise unit)
| AuthUpdate (t : Token) (outcome : Promise (list Expense)).

Definition step (v : View) (o : Op) : View * list Event :=
  match o with
  | Scroll ih st oh outcome => handleScroll ih st oh outcome v
  | Add d outcome => run_on v (handleAddExpense (token v) d outcome)
  | Update e outcome => run_on v (handleUpdateExpense (token v) e outcome)
  | Delete i outcome => run_on v (handleDeleteExpense (token v) i outcome)
  | AuthUpdate t outcome => depsChanged t outcome v
  end.

Fixpoint run (v : View) (ops : list Op) : View * list Event :=
  match ops with
  | [] => (v, [])
  | o :: ops' =>
      let '(v1, t1) := step v o in
      let '(v2, t2) := run v1 ops' in
      (v2, t1 ++ t2)
  end.

(** A session: the view is mounted, then operations follow. *)
Definition session (t : Token) (first : Promise (list Expense)) (ops : list Op)
    : View * list Event :=
  let '(v0, t0) := mount t first in
  let '(v, t1) := run v0 ops in
  (v, t0 ++ t1).

(** The [_id]s held by the feed. *)
Definition ids (l : list Expense) : list string := _id <$> l.

(** Descending by date: every entry is dated no earlier than all that follow. *)
Definition sortedDesc (l : list Expense) : Prop :=
  StronglySorted (λ a b, date b ≤ date a) l.

(** The requests for a page among the events. *)
Definition is_fetch (e : Event) : bool :=
  match e with call_fetchExpenses _ _ _ => true | _ => false end.

Definition fetches (t : list Event) : list Event :=
  filter (λ e, is_fetch e = true) t.

(** The events that end the session: [logout()] and [router.push]. *)
Definition is_signout (e : Event) : bool :=
  match e with call_logout | router_push _ => true | _ => false end.

Definition signouts (t : list Event) : list Event :=
  filter (λ e, is_signout e = true) t.

(** ** Sample data *)

Definition mkExpense (i : string) (c : string) (d : Z) : Expense :=
  {| _id := i; description := "item " +:+ i; amount := 575; category := c; date := d |}.

(** A full page: ten records with ids [p0] .. [p9] dated [d], [d-1], ... *)
Definition fullPage (p : string) (d : Z) : list Expense :=
  (λ k, mkExpense (p +:+ pretty k) "Groceries" (d - Z.of_nat k)) <$> seq 0 10.

(** ** Reading the result of a callback body *)

Definition after {A} (r : A * Cells * list Event) : Cells := r.1.2.
Definition events {A} (r : A * Cells * list Event) : list Event := r.2.

(** ** Fresh ids

    The component never compares the [_id]s of incoming records with those it
    already holds.  [op_fresh v o] says that the records operation [o] brings
    in carry [_id]s that are new to the feed of [v] and distinct from one
    another. *)
Definition fresh_page (prev data : list Expense) : bool :=
  bool_decide (NoDup (ids data) ∧ Forall (λ i, i ∉ ids prev) (ids data)).

Definition op_fresh (v : View) (o : Op) : bool :=
  match o with
  | Scroll _ _ _ (Resolved data) => fresh_page (expenses (cells v)) data
  | AuthUpdate _ (Resolved data) => fresh_page (expenses (cells v)) data
  | Add _ (Resolved newExpense) =>
      bool_decide (_id newExpense ∉ ids (expenses (cells v)))
  | _ => true
  end.

Fixpoint run_fresh (v : View) (ops : list Op) : bool :=
  match ops with
  | [] => true
  | o :: ops' => op_fresh v o && run_fresh (step v o).1 ops'
  end.

Definition session_fresh (t : Token) (first : Promise (list Expense))
    (ops : list Op) : bool :=
  match first with
  | Resolved data => fresh_page [] data
  | Rejected => true
  end && run_fresh (mount t first).1 ops.

(** Operations other than a change of the auth context. *)
Definition keeps_auth (o : Op) : bool :=
  match o with AuthUpdate _ _ => false | _ => true end.

(** The token captured by the memoised [loadExpenses] is the current one,
    and while [hasMore] is true so is the captured [hasMore]: the guards of
    [loadExpenses] can then be read off the current view. *)
Definition memo_agrees (v : View) : Prop :=
  c_token (memo_loadExpenses v) = token v
  ∧ (hasMore (cells v) = true → c_hasMore (memo_loadExpenses v) = true).

(** The token a request to the API is sent with. *)
Definition request_token (e : Event) : option Token :=
  match e with
  | call_fetchExpenses t _ _ => Some t
  | call_addExpense _ t => Some t
  | call_updateExpense _ t => Some t
  | call_deleteExpense _ t => Some t
  | _ => None
  end.

(** Operations whose request is rejected. *)
Definition op_rejected (o : Op) : bool :=
  match o with
  | Scroll _ _ _ Rejected | Add _ Rejected | Update _ Rejected
  | Delete _ Rejected | AuthUpdate _ Rejected => true
  | _ => false
  end.

(** What the [catch] block of [loadExpenses] does to the session. *)
Definition signout_pair : list Event := [call_logout; router_push "/login"].

(** ** The operations the mounted component undergoes

    [handleScroll] is defined by the component but nothing calls it: it is
    not registered as a listener and not handed to a child.  The loads the
    component itself makes are those of the effect, at mount and whenever a
    dependency of [loadExpenses] changes. *)
Definition live (o : Op) : bool :=
  match o with Scroll _ _ _ _ => false | _ => true end.

(** The page a load asked for, when the load succeeded: the operation is a
    load whose request was sent and resolved. *)
Definition loaded_page (o : Op) (emitted : list Event) : option nat :=
  match o with
  | Scroll _ _ _ (Resolved _) | AuthUpdate _ (Resolved _) =>
      match emitted with
      | call_fetchExpenses _ p _ :: _ => Some p
      | _ => None
      end
  | _ => None
  end.

(** The pages asked for by the successful loads of a run, in order. *)
Fixpoint loads (v : View) (ops : list Op) : list nat :=
  match ops with
  | [] => []
  | o :: ops' =>
      option_list (loaded_page o (step v o).2) ++ loads (step v o).1 ops'
  end.

(** The same for a session, the load of the mount effect included. *)
Definition session_loads (t : Token) (first : Promise (list Expense))
    (ops : list Op) : list nat :=
  option_list (loaded_page (AuthUpdate t first) (mount t first).2)
  ++ loads (mount t first).1 ops.

(** * Facts *)

(** ** The sort *)

Section ArraySortFacts.
Context {A : Type} (cmp : A → A → Z).

Lemma sort_insert_perm (x : A) (l : list A) : sort_insert cmp x l ≡ₚ x :: l.
Proof.
  induction l as [|y l IH]; simpl; [done|].
  destruct (cmp x y <=? 0); [done|].
  rewrite IH. apply Permutation_swap.
Qed.

Lemma Array_sort_perm (l : list A) : Array_sort cmp l ≡ₚ l.
Proof.
  induction l as [|x l IH]; simpl; [done|].
  by rewrite sort_insert_perm, IH.
Qed.

Lemma Array_sort_elem_of (x : A) (l : list A) : x ∈ Array_sort cmp l ↔ x ∈ l.
Proof. by rewrite Array_sort_perm. Qed.

(** Stability: a class of entries that the comparator never puts apart
    comes out of the sort in the order in which it went in. *)
Section Stable.
Context (P : A → Prop) `{!∀ x, Decision (P x)}.
Hypothesis P_tied : ∀ x y, P x → P y → cmp x y ≤ 0.

Lemma sort_insert_filter (x : A) (l : list A) :
  filter P (sort_insert cmp x l) = filter P (x :: l).
Proof.
  induction l as [|y l IH]; simpl; [done|].
  destruct (cmp x y <=? 0) eqn:Hc; [done|].
  apply Z.leb_gt in Hc.
  rewrite filter_cons, IH. rewrite !filter_cons.
  destruct (decide (P y)) as [Hy|Hy]; [|done].
  destruct (decide (P x)) as [Hx|Hx]; [|done].
  specialize (P_tied x y Hx Hy). lia.
Qed.

Lemma Array_sort_filter (l : list A) :
  filter P (Array_sort cmp l) = filter P l.
Proof.
  induction l as [|x l IH]; simpl; [done|].
  by rewrite sort_insert_filter, !filter_cons, IH.
Qed.
End Stable.

(** Sortedness, for a comparator that is total and transitive. *)
Section Ordered.
Hypothesis cmp_total : ∀ x y, cmp x y ≤ 0 ∨ cmp y x ≤ 0.
Hypothesis cmp_trans : ∀ x y z, cmp x y ≤ 0 → cmp y z ≤ 0 → cmp x z ≤ 0.

Lemma sort_insert_sorted (x : A) (l : list A) :
  StronglySorted (λ a b, cmp a b ≤ 0) l →
  StronglySorted (λ a b, cmp a b ≤ 0) (sort_insert cmp x l).
Proof.
  induction 1 as [|y l Hl IH Hy]; simpl.
  { repeat constructor. }
  destruct (cmp x y <=? 0) eqn:Hc.
  - apply Z.leb_le in Hc. constructor; [by constructor|].
    constructor; [done|]. eapply Forall_impl; [exact Hy|].
    intros z Hz. by eapply cmp_trans.
  - apply Z.leb_gt in Hc. constructor; [done|].
    rewrite sort_insert_perm. constructor; [|done].
    destruct (cmp_total x y); [lia|done].
Qed.

Lemma Array_sort_sorted (l : list A) :
  StronglySorted (λ a b, cmp a b ≤ 0) (Array_sort cmp l).
Proof.
  induction l as [|x l IH]; simpl; [constructor|].
  by apply sort_insert_sorted.
Qed.
End Ordered.
End ArraySortFacts.

Lemma StronglySorted_mono {A} (R1 R2 : relation A) (l : list A) :
  (∀ a b, R1 a b → R2 a b) → StronglySorted R1 l → StronglySorted R2 l.
Proof.
  intros HR. induction 1 as [|x l Hl IH Hx]; constructor; [done|].
  eapply Forall_impl; [exact Hx|]. intros y. apply HR.
Qed.

Lemma sortedDesc_sort (l : list Expense) : sortedDesc (Array_sort byDateDesc l).
Proof.
  unfold sortedDesc.
  apply (StronglySorted_mono (λ a b, byDateDesc a b ≤ 0)).
  - unfold byDateDesc. intros a b. lia.
  - apply Array_sort_sorted; unfold byDateDesc; intros; lia.
Qed.

Lemma sortedDesc_filter (P : Expense → Prop) `{!∀ x, Decision (P x)} (l : list Expense) :
  sortedDesc l → sortedDesc (filter P l).
Proof.
  unfold sortedDesc. induction 1 as [|x l Hl IH Hx]; [constructor|].
  rewrite filter_cons. destruct (decide (P x)); [|done].
  constructor; [done|].
  apply Forall_forall. intros y [_ Hy]%list_elem_of_filter.
  by eapply Forall_forall in Hx.
Qed.

(** ** What each callback computes *)

(** Runs the monadic glue of a callback body, leaving the data alone. *)
Ltac exec :=
  unfold await, skip, emit; unfold mbind, M_bind, mret, M_ret;
  cbn -[Nat.ltb PAGE_SIZE Array_sort byDateDesc length].

Lemma loadExpenses_resolved (c : Captured) (data : list Expense) (s : Cells) :
  truthy (c_token c) = true → c_hasMore c = true →
  loadExpenses c (Resolved data) s =
    ((), {| expenses := Array_sort byDateDesc (expenses s ++ data);
            isLoading := false;
            page := (page s + 1)%nat;
            hasMore := if (length data <? PAGE_SIZE)%nat then false else hasMore s |},
     [call_fetchExpenses (c_token c) (c_page c) PAGE_SIZE]).
Proof.
  intros Ht Hm. unfold loadExpenses. rewrite Ht, Hm. exec.
  by destruct (length data <? PAGE_SIZE)%nat.
Qed.

Lemma loadExpenses_rejected (c : Captured) (s : Cells) :
  truthy (c_token c) = true → c_hasMore c = true →
  loadExpenses c Rejected s =
    ((), {| expenses := expenses s; isLoading := false;
            page := page s; hasMore := hasMore s |},
     [call_fetchExpenses (c_token c) (c_page c) PAGE_SIZE;
      console_error "Failed to fetch expenses:"; call_logout; router_push "/login"]).
Proof. intros Ht Hm. unfold loadExpenses. by rewrite Ht, Hm. Qed.

Lemma loadExpenses_falsy (c : Captured) (outcome : Promise (list Expense)) (s : Cells) :
  truthy (c_token c) = false →
  loadExpenses c outcome s =
    ((), {| expenses := expenses s; isLoading := false;
            page := page s; hasMore := hasMore s |}, []).
Proof. intros Ht. unfold loadExpenses. by rewrite Ht. Qed.

Lemma loadExpenses_exhausted (c : Captured) (outcome : Promise (list Expense)) (s : Cells) :
  truthy (c_token c) = true → c_hasMore c = false →
  loadExpenses c outcome s = ((), s, []).
Proof. intros Ht Hm. unfold loadExpenses. by rewrite Ht, Hm. Qed.

(** The four ways a call of [loadExpenses] can go. *)
Lemma loadExpenses_cases (c : Captured) (outcome : Promise (list Expense)) (s : Cells) :
  (∃ data, outcome = Resolved data ∧ truthy (c_token c) = true ∧ c_hasMore c = true)
  ∨ (outcome = Rejected ∧ truthy (c_token c) = true ∧ c_hasMore c = true)
  ∨ truthy (c_token c) = false
  ∨ (truthy (c_token c) = true ∧ c_hasMore c = false).
Proof.
  destruct (truthy (c_token c)), (c_hasMore c), outcome; eauto 10.
Qed.

Lemma handleAddExpense_resolved (t : Token) (d : ExpenseData) (e : Expense) (s : Cells) :
  truthy t = true →
  handleAddExpense t d (Resolved e) s =
    ((), {| expenses := Array_sort byDateDesc (e :: expenses s);
            isLoading := isLoading s; page := page s; hasMore := hasMore s |},
     [call_addExpense d t;
      toast "Expense Added" (quoted (description e) +:+ " has been added.") false]).
Proof. intros Ht. unfold handleAddExpense. by rewrite Ht. Qed.

Lemma handleUpdateExpense_resolved (t : Token) (u e : Expense) (s : Cells) :
  truthy t = true →
  handleUpdateExpense t u (Resolved e) s =
    ((), {| expenses := Array_sort byDateDesc
              ((λ exp, if decide (_id exp = _id e) then e else exp) <$> expenses s);
            isLoading := isLoading s; page := page s; hasMore := hasMore s |},
     [call_updateExpense u t;
      toast "Expense Updated" (quoted (description e) +:+ " has been updated.") false]).
Proof. intros Ht. unfold handleUpdateExpense. by rewrite Ht. Qed.

Lemma handleDeleteExpense_resolved (t : Token) (i : string) (s : Cells) :
  truthy t = true →
  handleDeleteExpense t i (Resolved ()) s =
    ((), {| expenses := filter (λ exp, _id exp ≠ i) (expenses s);
            isLoading := isLoading s; page := page s; hasMore := hasMore s |},
     [call_deleteExpense i t;
      toast "Expense Deleted"
        (quoted (from_option (λ p, description p.2) "undefined"
                   (list_find (λ e, _id e = i) (expenses s)))
           +:+ " has been deleted.") false]).
Proof. intros Ht. unfold handleDeleteExpense. by rewrite Ht. Qed.

Lemma handler_falsy (t : Token) (s : Cells) :
  truthy t = false →
  (∀ d o, handleAddExpense t d o s = ((), s, [console_error "No auth token found"]))
  ∧ (∀ u o, handleUpdateExpense t u o s = ((), s, [console_error "No auth token found"]))
  ∧ (∀ i o, handleDeleteExpense t i o s = ((), s, [console_error "No auth token found"])).
Proof.
  intros Ht. unfold handleAddExpense, handleUpdateExpense, handleDeleteExpense.
  by rewrite Ht.
Qed.

Lemma handler_rejected (t : Token) (s : Cells) :
  truthy t = true →
  (∀ d, handleAddExpense t d Rejected s =
     ((), s, [call_addExpense d t; console_error "Failed to add expense:";
              toast "Error" "Failed to add expense." true]))
  ∧ (∀ u, handleUpdateExpense t u Rejected s =
     ((), s, [call_updateExpense u t; console_error "Failed to update expense:";
              toast "Error" "Failed to update expense." true]))
  ∧ (∀ i, handleDeleteExpense t i Rejected s =
     ((), s, [call_deleteExpense i t; console_error "Failed to delete expense:";
              toast "Error" "Failed to delete expense." true])).
Proof.
  intros Ht. unfold handleAddExpense, handleUpdateExpense, handleDeleteExpense.
  by rewrite Ht.
Qed.

(** ** Loading without a token *)

(** C9. When the token is absent (or falsy), [loadExpenses] clears
    [isLoading], issues no request and no other event, and leaves
    [expenses], [page] and [hasMore] as they were. *)
Theorem loadExpenses_without_token (c : Captured)
    (outcome : Promise (list Expense)) (s : Cells) :
  truthy (c_token c) = false →
  let r := loadExpenses c outcome s in
  isLoading (after r) = false
  ∧ events r = []
  ∧ expenses (after r) = expenses s
  ∧ page (after r) = page s
  ∧ hasMore (after r) = hasMore s.
Proof.
  intros Ht r. subst r. by rewrite loadExpenses_falsy.
Qed.

Lemma loadExpenses_without_token_witness :
  let s := {| expenses := [mkExpense "a" "Groceries" 7]; isLoading := true;
              page := 1; hasMore := true |} in
  let r := loadExpenses (capture None s) (Resolved (fullPage "p" 100)) s in
  isLoading (after r) = false
  ∧ events r = []
  ∧ expenses (after r) = expenses s
  ∧ page (after r) = page s
  ∧ hasMore (after r) = hasMore s.
Proof.
  intros s. apply (loadExpenses_without_token (capture None s)). reflexivity.
Defined.

(** ** A page load that fails *)

(** C5. When the request for a page is rejected, [loadExpenses] has issued
    that one request, then logs the failure, calls [logout] once and pushes
    [/login]; nothing else happens, in particular no second request.
    Whatever the outcome of the request, [isLoading] is false afterwards. *)
Theorem loadExpenses_failure_logs_out (c : Captured) (s : Cells) :
  truthy (c_token c) = true → c_hasMore c = true →
  let r := loadExpenses c Rejected s in
  events r = [call_fetchExpenses (c_token c) (c_page c) PAGE_SIZE;
              console_error "Failed to fetch expenses:";
              call_logout; router_push "/login"]
  ∧ length (filter (λ e, e = call_logout) (events r)) = 1%nat
  ∧ length (fetches (events r)) = 1%nat
  ∧ isLoading (after r) = false
  ∧ ∀ outcome, isLoading (after (loadExpenses c outcome s)) = false.
Proof.
  intros Ht Hm r. subst r. rewrite loadExpenses_rejected by done.
  repeat split.
  intros [data|].
  - by rewrite loadExpenses_resolved.
  - by rewrite loadExpenses_rejected.
Qed.

Lemma loadExpenses_failure_logs_out_witness :
  let s := {| expenses := fullPage "a" 100; isLoading := false;
              page := 2; hasMore := true |} in
  let c := capture (Some "tok") s in
  let r := loadExpenses c Rejected s in
  events r = [call_fetchExpenses (Some "tok") 2 10;
              console_error "Failed to fetch expenses:";
              call_logout; router_push "/login"]
  ∧ length (filter (λ e, e = call_logout) (events r)) = 1%nat
  ∧ length (fetches (events r)) = 1%nat
  ∧ isLoading (after r) = false
  ∧ ∀ outcome, isLoading (after (loadExpenses c outcome s)) = false.
Proof.
  intros s c. apply (loadExpenses_failure_logs_out c s); reflexivity.
Defined.

(** ** Mutations that fail *)

(** C6. When the request of [handleAddExpense], [handleUpdateExpense] or
    [handleDeleteExpense] is rejected, the cells ([expenses], [page],
    [hasMore], [isLoading]) are exactly what they were, and the only events
    after the request are the console message and one destructive toast:
    no [logout], no [router.push]. *)
Theorem failed_mutation_changes_nothing (t : Token) (s : Cells) :
  truthy t = true →
  (∀ d, let r := handleAddExpense t d Rejected s in
        after r = s
        ∧ events r = [call_addExpense d t; console_error "Failed to add expense:";
                      toast "Error" "Failed to add expense." true]
        ∧ signouts (events r) = [])
  ∧ (∀ u, let r := handleUpdateExpense t u Rejected s in
        after r = s
        ∧ events r = [call_updateExpense u t;
                      console_error "Failed to update expense:";
                      toast "Error" "Failed to update expense." true]
        ∧ signouts (events r) = [])
  ∧ (∀ i, let r := handleDeleteExpense t i Rejected s in
        after r = s
        ∧ events r = [call_deleteExpense i t;
                      console_error "Failed to delete expense:";
                      toast "Error" "Failed to delete expense." true]
        ∧ signouts (events r) = []).
Proof.
  intros Ht. destruct (handler_rejected t s Ht) as (Ha & Hu & Hd).
  split_and!.
  - intros d r. subst r. by rewrite Ha.
  - intros u r. subst r. by rewrite Hu.
  - intros i r. subst r. by rewrite Hd.
Qed.

Lemma failed_mutation_changes_nothing_witness :
  let s := {| expenses := fullPage "a" 100; isLoading := false;
              page := 2; hasMore := true |} in
  after (handleDeleteExpense (Some "tok") "a3" Rejected s) = s
  ∧ events (handleDeleteExpense (Some "tok") "a3" Rejected s) =
      [call_deleteExpense "a3" (Some "tok");
       console_error "Failed to delete expense:";
       toast "Error" "Failed to delete expense." true].
Proof.
  intros s.
  destruct (failed_mutation_changes_nothing (Some "tok") s eq_refl) as (_ & _ & Hd).
  destruct (Hd "a3") as (H1 & H2 & _). by split.
Defined.

(** ** Deleting *)

(** C7. A confirmed [handleDeleteExpense] keeps, in their order, exactly the
    entries whose [_id] differs from the one given, and touches no other
    cell.  When no entry has that [_id] the cells are unchanged and the
    callback still ends with its ordinary toast: no error is reported. *)
Theorem handleDeleteExpense_removes_matching (t : Token) (i : string) (s : Cells) :
  truthy t = true →
  let r := handleDeleteExpense t i (Resolved ()) s in
  expenses (after r) = filter (λ e, _id e ≠ i) (expenses s)
  ∧ (∀ e, e ∈ expenses (after r) ↔ e ∈ expenses s ∧ _id e ≠ i)
  ∧ expenses (after r) `sublist_of` expenses s
  ∧ isLoading (after r) = isLoading s
  ∧ page (after r) = page s
  ∧ hasMore (after r) = hasMore s
  ∧ ((∀ e, e ∈ expenses s → _id e ≠ i) →
       after r = s
       ∧ events r = [call_deleteExpense i t;
                     toast "Expense Deleted"
                       (quoted "undefined" +:+ " has been deleted.") false]).
Proof.
  intros Ht r. subst r. rewrite handleDeleteExpense_resolved by done.
  unfold after, events. simpl. split_and!; try done.
  - intros e. rewrite list_elem_of_filter. tauto.
  - apply sublist_filter.
  - intros Hno. split.
    + destruct s as [es l p h]. simpl in *. f_equal.
      induction es as [|e es IH]; [done|].
      rewrite filter_cons_True by (apply Hno; left).
      f_equal. apply IH. intros e' He'. apply Hno. by right.
    + do 3 f_equal.
      destruct (list_find _ _) as [[k e]|] eqn:Hf; [|done].
      apply list_find_Some in Hf as (Hk & He & _).
      exfalso. eapply Hno; [|exact He]. by eapply list_elem_of_lookup_2.
Qed.

Lemma handleDeleteExpense_removes_matching_witness :
  let s := {| expenses := [mkExpense "a" "Fuel" 9; mkExpense "b" "Rent" 7;
                           mkExpense "c" "Fuel" 7; mkExpense "b" "Rent" 2];
              isLoading := false; page := 2; hasMore := false |} in
  expenses (after (handleDeleteExpense (Some "tok") "b" (Resolved ()) s))
  = [mkExpense "a" "Fuel" 9; mkExpense "c" "Fuel" 7].
Proof.
  intros s.
  destruct (handleDeleteExpense_removes_matching (Some "tok") "b" s eq_refl)
    as (H & _).
  exact H.
Defined.

(** ** Tie-breaking among equal dates *)

(** C10. After a confirmed [handleAddExpense] the entries dated like the new
    record are the new record followed by the earlier ones, in their earlier
    order: the new record precedes every existing entry of its date.  After
    a loaded page the entries of any one date are the earlier ones followed
    by the fetched ones: fetched records follow every existing entry of
    their date. *)
Theorem same_date_order (s : Cells) :
  (∀ t d newExpense, truthy t = true →
     let r := handleAddExpense t d (Resolved newExpense) s in
     filter (λ e, date e = date newExpense) (expenses (after r))
     = newExpense :: filter (λ e, date e = date newExpense) (expenses s))
  ∧ (∀ c data day, truthy (c_token c) = true → c_hasMore c = true →
     let r := loadExpenses c (Resolved data) s in
     filter (λ e, date e = day) (expenses (after r))
     = filter (λ e, date e = day) (expenses s)
       ++ filter (λ e, date e = day) data).
Proof.
  split.
  - intros t d e Ht r. subst r. rewrite handleAddExpense_resolved by done.
    unfold after. cbn [fst snd expenses].
    rewrite Array_sort_filter.
    + by rewrite filter_cons_True.
    + unfold byDateDesc. intros x y Hx Hy. lia.
  - intros c data day Ht Hm r. subst r. rewrite loadExpenses_resolved by done.
    unfold after. cbn [fst snd expenses].
    rewrite Array_sort_filter.
    + apply filter_app.
    + unfold byDateDesc. intros x y Hx Hy. lia.
Qed.

Lemma same_date_order_witness :
  let s := {| expenses := [mkExpense "a" "Fuel" 9; mkExpense "b" "Rent" 7;
                           mkExpense "c" "Fuel" 7; mkExpense "d" "Rent" 2];
              isLoading := false; page := 2; hasMore := true |} in
  let d := {| new_description := "item n"; new_amount := 575;
              new_category := "Fuel"; new_date := 7 |} in
  let n := mkExpense "n" "Fuel" 7 in
  let data := [mkExpense "x" "Fuel" 7; mkExpense "y" "Fuel" 9] in
  filter (λ e, date e = date n)
    (expenses (after (handleAddExpense (Some "tok") d (Resolved n) s)))
  = n :: filter (λ e, date e = date n) (expenses s)
  ∧ filter (λ e, date e = 7)
      (expenses (after (loadExpenses (capture (Some "tok") s) (Resolved data) s)))
    = filter (λ e, date e = 7) (expenses s) ++ filter (λ e, date e = 7) data.
Proof.
  intros s d n data. split.
  - apply (proj1 (same_date_order s)). reflexivity.
  - apply (proj2 (same_date_order s)); reflexivity.
Defined.

(** ** Categories *)

Lemma new_Set_spec {A} `{EqDecision A} (xs acc : list A) :
  NoDup acc →
  NoDup (foldl Set_add acc xs) ∧ ∀ x, x ∈ foldl Set_add acc xs ↔ x ∈ acc ∨ x ∈ xs.
Proof.
  revert acc. induction xs as [|y xs IH]; intros acc Hacc; simpl.
  { split; [done|]. intros x. rewrite elem_of_nil. tauto. }
  unfold Set_add at 2 4. destruct (decide (y ∈ acc)) as [Hy|Hy].
  - destruct (IH acc Hacc) as [Hn Hm]. split; [done|].
    intros x. rewrite Hm, elem_of_cons.
    split; [tauto|]. intros [?|[->|?]]; tauto.
  - destruct (IH (acc ++ [y])) as [Hn Hm].
    { apply NoDup_app. split_and!; [done| |apply NoDup_singleton].
      intros x Hx ->%list_elem_of_singleton. done. }
    split; [done|].
    intros x. rewrite Hm, elem_of_app, list_elem_of_singleton, elem_of_cons. tauto.
Qed.

Lemma defaultCompare_le (x y : string) : defaultCompare x y ≤ 0 ↔ String.le x y.
Proof.
  unfold defaultCompare, String.le, String.leb.
  destruct (String.compare x y); simpl; split; try done; lia.
Qed.

Lemma defaultCompare_sorted (l : list string) :
  StronglySorted String.le (Array_sort defaultCompare l).
Proof.
  apply (StronglySorted_mono (λ a b, defaultCompare a b ≤ 0)).
  { intros a b. apply defaultCompare_le. }
  apply Array_sort_sorted.
  - intros x y. rewrite !defaultCompare_le. apply total, _.
  - intros x y z. rewrite !defaultCompare_le. apply transitivity.
Qed.

(** In a sorted list without repetition neighbours are strictly ordered. *)
Lemma StronglySorted_strict (l : list string) :
  StronglySorted String.le l → NoDup l →
  StronglySorted (λ x y, String.compare x y = Lt) l.
Proof.
  induction 1 as [|x l Hl IH Hx]; intros Hnd; [constructor|].
  apply NoDup_cons in Hnd as [Hxl Hnd].
  constructor; [by apply IH|].
  apply Forall_forall. intros y Hy.
  eapply Forall_forall in Hx; [|exact Hy].
  unfold String.le, String.leb in Hx.
  destruct (String.compare x y) eqn:Hc; [|done|done].
  apply String.compare_eq_iff in Hc. by subst.
Qed.

(** C8. [allCategories] lists exactly the categories that occur in
    [expenses], each once, in strictly ascending order of their code units
    (the order of [sort()] without a comparator).  It is a function of
    [expenses] alone. *)
Theorem allCategories_spec (items : list Expense) :
  (∀ c, c ∈ allCategories items ↔ ∃ e, e ∈ items ∧ category e = c)
  ∧ NoDup (allCategories items)
  ∧ StronglySorted (λ x y, String.compare x y = Lt) (allCategories items)
  ∧ ∀ s : Cells, expenses s = items → allCategories (expenses s) = allCategories items.
Proof.
  unfold allCategories, new_Set.
  destruct (new_Set_spec (category <$> items) [] (NoDup_nil_2)) as [Hn Hm].
  assert (NoDup (Array_sort defaultCompare (foldl Set_add [] (category <$> items)))) as Hnd.
  { by rewrite Array_sort_perm. }
  split_and!.
  - intros c. rewrite Array_sort_elem_of, Hm, elem_of_nil, list_elem_of_fmap.
    split.
    + intros [[]|(e & -> & He)]. eauto.
    + intros (e & He & <-). right. eauto.
  - done.
  - apply StronglySorted_strict; [apply defaultCompare_sorted|done].
  - by intros s ->.
Qed.

Lemma allCategories_spec_witness :
  let items := [mkExpense "1" "Groceries" 3; mkExpense "2" "Dining Out" 5;
                mkExpense "3" "Groceries" 1; mkExpense "4" "Electronics" 5] in
  allCategories items = ["Dining Out"; "Electronics"; "Groceries"]
  ∧ NoDup (allCategories items)
  ∧ ∀ s : Cells, expenses s = items → allCategories (expenses s) = allCategories items.
Proof.
  intros items.
  destruct (allCategories_spec items) as (_ & Hnd & _ & Hpure).
  split; [reflexivity|]. split; [exact Hnd|exact Hpure].
Defined.

(** ** From callback bodies to views *)

Lemma run_on_cells (v : View) (m : M unit) : cells (run_on v m).1 = after (m (cells v)).
Proof. unfold run_on, after. by destruct (m (cells v)) as [[[] s] t]. Qed.

Lemma run_on_events (v : View) (m : M unit) : (run_on v m).2 = events (m (cells v)).
Proof. unfold run_on, events. by destruct (m (cells v)) as [[[] s] t]. Qed.

Lemma run_on_memo (v : View) (m : M unit) :
  memo_loadExpenses (run_on v m).1 = memo_loadExpenses v
  ∧ token (run_on v m).1 = token v.
Proof. unfold run_on. by destruct (m (cells v)) as [[[] s] t]. Qed.

Lemma handler_cases {A} (t : Token) (outcome : Promise A) :
  truthy t = false
  ∨ (truthy t = true ∧ outcome = Rejected)
  ∨ (truthy t = true ∧ ∃ a, outcome = Resolved a).
Proof. destruct (truthy t), outcome; eauto. Qed.

(** Case analyses on how a callback goes, each case rewritten with the
    equation of the callback. *)
Ltac load_cases c outcome s :=
  let data := fresh "data" in
  let Ht := fresh "Ht" in
  let Hm := fresh "Hm" in
  destruct (loadExpenses_cases c outcome s)
    as [(data & -> & Ht & Hm) | [(-> & Ht & Hm) | [Ht | [Ht Hm]]]];
  [ rewrite (loadExpenses_resolved c data s Ht Hm)
  | rewrite (loadExpenses_rejected c s Ht Hm)
  | rewrite (loadExpenses_falsy c outcome s Ht)
  | rewrite (loadExpenses_exhausted c outcome s Ht Hm) ].

Ltac handler_split t outcome s :=
  let a := fresh "a" in
  let Ht := fresh "Ht" in
  destruct (handler_cases t outcome) as [Ht | [[Ht ->] | [Ht [a ->]]]];
  [ first [ rewrite (proj1 (handler_falsy t s Ht))
          | rewrite (proj1 (proj2 (handler_falsy t s Ht)))
          | rewrite (proj2 (proj2 (handler_falsy t s Ht))) ]
  | first [ rewrite (proj1 (handler_rejected t s Ht))
          | rewrite (proj1 (proj2 (handler_rejected t s Ht)))
          | rewrite (proj2 (proj2 (handler_rejected t s Ht))) ]
  | first [ rewrite (handleAddExpense_resolved t _ a s Ht)
          | rewrite (handleUpdateExpense_resolved t _ a s Ht)
          | destruct a; rewrite (handleDeleteExpense_resolved t _ s Ht) ] ].

(** ** Sorted by date *)

Lemma step_sorted (v : View) (o : Op) :
  sortedDesc (expenses (cells v)) → sortedDesc (expenses (cells (step v o).1)).
Proof.
  intros Hs. destruct o as [ih st oh outcome|d outcome|u outcome|i outcome|t outcome];
    cbn [step].
  - unfold handleScroll. destruct (_ && _); [|done].
    rewrite run_on_cells.
    load_cases (memo_loadExpenses v) outcome (cells v);
      unfold after; cbn [fst snd expenses]; auto using sortedDesc_sort.
  - rewrite run_on_cells.
    handler_split (token v) outcome (cells v);
      unfold after; cbn [fst snd expenses]; auto using sortedDesc_sort.
  - rewrite run_on_cells.
    handler_split (token v) outcome (cells v);
      unfold after; cbn [fst snd expenses]; auto using sortedDesc_sort.
  - rewrite run_on_cells.
    handler_split (token v) outcome (cells v);
      unfold after; cbn [fst snd expenses]; auto using sortedDesc_sort.
    by apply sortedDesc_filter.
  - unfold depsChanged. rewrite run_on_cells. cbn [cells].
    load_cases (capture t (cells v)) outcome (cells v);
      unfold after; cbn [fst snd expenses]; auto using sortedDesc_sort.
Qed.

Lemma run_sorted (ops : list Op) (v : View) :
  sortedDesc (expenses (cells v)) → sortedDesc (expenses (cells (run v ops).1)).
Proof.
  revert v. induction ops as [|o ops IH]; intros v Hs; [done|].
  cbn [run]. pose proof (step_sorted v o Hs) as H1.
  destruct (step v o) as [v1 t1]. specialize (IH v1 H1).
  by destruct (run v1 ops) as [v2 t2].
Qed.

(** C3. In every session (the mount followed by any operations, whatever
    their outcomes) [expenses] is sorted by date, latest first; and from any
    cells whatever, a page load, a [handleAddExpense] or a
    [handleUpdateExpense] that succeeded leaves [expenses] sorted by date,
    latest first. *)
Theorem expenses_sorted_after_success :
  (∀ t first ops, sortedDesc (expenses (cells (session t first ops).1)))
  ∧ (∀ c data s, truthy (c_token c) = true → c_hasMore c = true →
       sortedDesc (expenses (after (loadExpenses c (Resolved data) s))))
  ∧ (∀ t d e s, truthy t = true →
       sortedDesc (expenses (after (handleAddExpense t d (Resolved e) s))))
  ∧ (∀ t u e s, truthy t = true →
       sortedDesc (expenses (after (handleUpdateExpense t u (Resolved e) s)))).
Proof.
  split_and!.
  - intros t first ops. unfold session.
    assert (sortedDesc (expenses (cells (mount t first).1))) as H0.
    { unfold mount. apply (step_sorted _ (AuthUpdate t first)). constructor. }
    destruct (mount t first) as [v0 t0].
    pose proof (run_sorted ops v0 H0) as H1.
    by destruct (run v0 ops) as [v1 t1].
  - intros c data s Ht Hm. rewrite loadExpenses_resolved by done.
    apply sortedDesc_sort.
  - intros t d e s Ht. rewrite handleAddExpense_resolved by done.
    apply sortedDesc_sort.
  - intros t u e s Ht. rewrite handleUpdateExpense_resolved by done.
    apply sortedDesc_sort.
Qed.

Lemma expenses_sorted_after_success_witness :
  let s := {| expenses := [mkExpense "a" "Fuel" 2; mkExpense "b" "Rent" 7];
              isLoading := false; page := 2; hasMore := true |} in
  let u := mkExpense "a" "Fuel" 8 in
  sortedDesc (expenses (after
    (loadExpenses (capture (Some "tok") s) (Resolved (fullPage "p" 5)) s)))
  ∧ sortedDesc (expenses (after (handleUpdateExpense (Some "tok") u (Resolved u) s))).
Proof.
  intros s u.
  destruct expenses_sorted_after_success as (_ & Hload & _ & Hupd).
  split; [apply Hload; reflexivity | apply Hupd; reflexivity].
Defined.

(** ** No two entries with one id *)

Lemma ids_sort (l : list Expense) : ids (Array_sort byDateDesc l) ≡ₚ ids l.
Proof. unfold ids. by rewrite Array_sort_perm. Qed.

Lemma ids_replace (e : Expense) (l : list Expense) :
  ids ((λ exp, if decide (_id exp = _id e) then e else exp) <$> l) = ids l.
Proof.
  unfold ids. rewrite <- list_fmap_compose. apply list_fmap_ext.
  intros k x _. simpl. by destruct (decide (_id x = _id e)).
Qed.

Lemma ids_filter_NoDup (P : Expense → Prop) `{!∀ x, Decision (P x)} (l : list Expense) :
  NoDup (ids l) → NoDup (ids (filter P l)).
Proof.
  unfold ids. intros Hl. eapply sublist_NoDup; [exact Hl|].
  apply fmap_sublist, sublist_filter.
Qed.

Lemma fresh_page_NoDup (prev data : list Expense) :
  fresh_page prev data = true → NoDup (ids prev) →
  NoDup (ids (Array_sort byDateDesc (prev ++ data))).
Proof.
  unfold fresh_page. intros [Hd Hf]%bool_decide_eq_true Hp.
  rewrite ids_sort. unfold ids in *. rewrite fmap_app.
  apply NoDup_app. split_and!; [done| |done].
  intros i Hi Hi'. eapply Forall_forall in Hf; [|exact Hi']. done.
Qed.

Lemma step_NoDup (v : View) (o : Op) :
  op_fresh v o = true →
  NoDup (ids (expenses (cells v))) → NoDup (ids (expenses (cells (step v o).1))).
Proof.
  intros Hf Hs.
  destruct o as [ih st oh outcome|d outcome|u outcome|i outcome|t outcome];
    cbn [step].
  - unfold handleScroll. destruct (_ && _); [|done].
    rewrite run_on_cells.
    load_cases (memo_loadExpenses v) outcome (cells v);
      unfold after; cbn [fst snd expenses]; try done.
    by apply fresh_page_NoDup.
  - rewrite run_on_cells.
    handler_split (token v) outcome (cells v);
      unfold after; cbn [fst snd expenses]; try done.
    rewrite ids_sort. cbn [op_fresh] in Hf. apply bool_decide_eq_true in Hf.
    unfold ids in *. rewrite fmap_cons. by apply NoDup_cons.
  - rewrite run_on_cells.
    handler_split (token v) outcome (cells v);
      unfold after; cbn [fst snd expenses]; try done.
    by rewrite ids_sort, ids_replace.
  - rewrite run_on_cells.
    handler_split (token v) outcome (cells v);
      unfold after; cbn [fst snd expenses]; try done.
    by apply ids_filter_NoDup.
  - unfold depsChanged. rewrite run_on_cells. cbn [cells].
    load_cases (capture t (cells v)) outcome (cells v);
      unfold after; cbn [fst snd expenses]; try done.
    by apply fresh_page_NoDup.
Qed.

Lemma run_NoDup (ops : list Op) (v : View) :
  run_fresh v ops = true →
  NoDup (ids (expenses (cells v))) → NoDup (ids (expenses (cells (run v ops).1))).
Proof.
  revert v. induction ops as [|o ops IH]; intros v Hf Hs; [done|].
  cbn [run run_fresh] in *. apply andb_true_iff in Hf as [Ho Hf].
  pose proof (step_NoDup v o Ho Hs) as H1.
  destruct (step v o) as [v1 t1]. specialize (IH v1 Hf H1).
  by destruct (run v1 ops) as [v2 t2].
Qed.

(** C2 (as amended). The component does not compare [_id]s: it relies on
    what it is given.  In every session in which each loaded page and each
    added record brings only [_id]s that are new to the feed and distinct
    from one another, [expenses] never holds two entries with one [_id];
    updates and deletions need no such proviso. *)
Theorem fresh_ids_stay_distinct (t : Token) (first : Promise (list Expense))
    (ops : list Op) :
  session_fresh t first ops = true →
  NoDup (ids (expenses (cells (session t first ops).1))).
Proof.
  unfold session_fresh, session. intros [H0 Hf]%andb_true_iff.
  assert (NoDup (ids (expenses (cells (mount t first).1)))) as Hm.
  { unfold mount. apply (step_NoDup _ (AuthUpdate t first)).
    - by destruct first.
    - constructor. }
  destruct (mount t first) as [v0 t0]. cbn [fst] in *.
  pose proof (run_NoDup ops v0 Hf Hm) as H1.
  by destruct (run v0 ops) as [v1 t1].
Qed.

Lemma fresh_ids_stay_distinct_witness :
  NoDup (ids (expenses (cells
    (session (Some "tok") (Resolved (fullPage "a" 100))
       [AuthUpdate (Some "tok2") (Resolved (fullPage "b" 50));
        Add {| new_description := "item n"; new_amount := 575;
               new_category := "Fuel"; new_date := 70 |}
            (Resolved (mkExpense "n" "Fuel" 70));
        Update (mkExpense "a3" "Rent" 10) (Resolved (mkExpense "a3" "Rent" 10));
        Delete "b2" (Resolved ())]).1))).
Proof.
  apply fresh_ids_stay_distinct. vm_compute. reflexivity.
Defined.

(** C2, as stated, fails.  The first page arrives at mount; the token is
    then renewed, the effect loads page 2, and the page the API returns for
    it holds a record of the first page again (records move between pages
    when the collection changes).  That record is now held twice. *)
Lemma overlapping_pages_duplicate :
  ¬ NoDup (ids (expenses (cells
      (session (Some "tok") (Resolved (fullPage "a" 100))
         [AuthUpdate (Some "tok2")
            (Resolved [mkExpense "a9" "Groceries" 91;
                       mkExpense "b0" "Fuel" 90])]).1))).
Proof.
  apply (bool_decide_eq_false_1 _). vm_compute. reflexivity.
Qed.

(** ** Exhaustion *)

Lemma step_exhausted (v : View) (o : Op) :
  hasMore (cells v) = false →
  hasMore (cells (step v o).1) = false ∧ fetches (step v o).2 = [].
Proof.
  intros Hh.
  destruct o as [ih st oh outcome|d outcome|u outcome|i outcome|t outcome];
    cbn [step].
  - unfold handleScroll. rewrite Hh, andb_false_r. done.
  - rewrite run_on_cells, run_on_events.
    handler_split (token v) outcome (cells v); done.
  - rewrite run_on_cells, run_on_events.
    handler_split (token v) outcome (cells v); done.
  - rewrite run_on_cells, run_on_events.
    handler_split (token v) outcome (cells v); done.
  - unfold depsChanged. rewrite run_on_cells, run_on_events. cbn [cells].
    load_cases (capture t (cells v)) outcome (cells v);
      try (cbn [capture c_hasMore] in *; congruence); done.
Qed.

Lemma run_exhausted (ops : list Op) (v : View) :
  hasMore (cells v) = false →
  hasMore (cells (run v ops).1) = false ∧ fetches (run v ops).2 = [].
Proof.
  revert v. induction ops as [|o ops IH]; intros v Hh; [done|].
  cbn [run]. destruct (step_exhausted v o Hh) as [H1 F1].
  destruct (step v o) as [v1 t1]. destruct (IH v1 H1) as [H2 F2].
  destruct (run v1 ops) as [v2 t2]. cbn [fst snd] in *.
  split; [done|]. unfold fetches in *. by rewrite filter_app, F1, F2.
Qed.

(** C4. A page of fewer than [PAGE_SIZE] records sets [hasMore] to false.
    From then on, whatever operations follow and however they end,
    [hasMore] is false, no page is requested again, and [handleScroll] does
    nothing at all. *)
Theorem short_page_exhausts_for_good (v : View) (c : Captured)
    (data : list Expense) (ops : list Op) :
  truthy (c_token c) = true → c_hasMore c = true →
  (length data < PAGE_SIZE)%nat →
  let v1 := (run_on v (loadExpenses c (Resolved data))).1 in
  hasMore (cells v1) = false
  ∧ hasMore (cells (run v1 ops).1) = false
  ∧ fetches (run v1 ops).2 = []
  ∧ ∀ ih st oh outcome,
      handleScroll ih st oh outcome (run v1 ops).1 = ((run v1 ops).1, []).
Proof.
  intros Ht Hm Hlen v1.
  assert (hasMore (cells v1) = false) as H1.
  { subst v1. rewrite run_on_cells, loadExpenses_resolved by done.
    unfold after. cbn [fst snd hasMore].
    apply Nat.ltb_lt in Hlen. by rewrite Hlen. }
  destruct (run_exhausted ops v1 H1) as [H2 F2].
  split_and!; try done.
  intros ih st oh outcome. unfold handleScroll. by rewrite H2, andb_false_r.
Qed.

Lemma short_page_exhausts_for_good_witness :
  let v := (mount (Some "tok") (Resolved (fullPage "a" 100))).1 in
  let data := [mkExpense "b0" "Fuel" 50; mkExpense "b1" "Rent" 40;
               mkExpense "b2" "Fuel" 30] in
  let ops := [Scroll 800 1200 2000 (Resolved (fullPage "c" 20));
              AuthUpdate (Some "tok2") (Resolved (fullPage "d" 10));
              Delete "b1" (Resolved ())] in
  let v1 := (run_on v (loadExpenses (memo_loadExpenses v) (Resolved data))).1 in
  hasMore (cells v1) = false
  ∧ hasMore (cells (run v1 ops).1) = false
  ∧ fetches (run v1 ops).2 = []
  ∧ ∀ ih st oh outcome,
      handleScroll ih st oh outcome (run v1 ops).1 = ((run v1 ops).1, []).
Proof.
  intros v data ops.
  apply (short_page_exhausts_for_good v (memo_loadExpenses v) data ops);
    [reflexivity | reflexivity | vm_compute; lia].
Defined.

(** ** What the memoised [loadExpenses] knows *)

Lemma step_hasMore (v : View) (o : Op) :
  hasMore (cells (step v o).1) = true → hasMore (cells v) = true.
Proof.
  destruct (hasMore (cells v)) eqn:Hh; [done|].
  destruct (step_exhausted v o Hh) as [-> _]. done.
Qed.

Lemma step_memo_agrees (v : View) (o : Op) :
  memo_agrees v → memo_agrees (step v o).1.
Proof.
  unfold memo_agrees. intros [Ht Hm].
  pose proof (step_hasMore v o) as Hmono.
  destruct o as [ih st oh outcome|d outcome|u outcome|i outcome|t outcome];
    cbn [step] in *.
  - unfold handleScroll in *. destruct (_ && _); [|done].
    destruct (run_on_memo v (loadExpenses (memo_loadExpenses v) outcome)) as [-> ->].
    auto.
  - destruct (run_on_memo v (handleAddExpense (token v) d outcome)) as [-> ->]. auto.
  - destruct (run_on_memo v (handleUpdateExpense (token v) u outcome)) as [-> ->]. auto.
  - destruct (run_on_memo v (handleDeleteExpense (token v) i outcome)) as [-> ->]. auto.
  - unfold depsChanged in *.
    match goal with
    | |- context [run_on ?w ?m] => destruct (run_on_memo w m) as [-> ->]
    end.
    cbn [token memo_loadExpenses capture c_token c_hasMore cells] in *. auto.
Qed.

Lemma session_memo_agrees (t : Token) (first : Promise (list Expense)) (ops : list Op) :
  memo_agrees (session t first ops).1.
Proof.
  unfold session.
  assert (memo_agrees (mount t first).1) as H0.
  { unfold mount. apply (step_memo_agrees _ (AuthUpdate t first)). by split. }
  destruct (mount t first) as [v0 t0]. cbn [fst] in *.
  assert (∀ v, memo_agrees v → memo_agrees (run v ops).1) as Hrun.
  { induction ops as [|o ops IH]; intros v Hv; [done|].
    cbn [run]. pose proof (step_memo_agrees v o Hv) as H1.
    destruct (step v o) as [v1 t1]. specialize (IH v1 H1).
    by destruct (run v1 ops) as [v2 t2]. }
  specialize (Hrun v0 H0). by destruct (run v0 ops) as [v1 t1].
Qed.

(** ** Which page a load requests *)

(** Between two changes of the auth context the memoised [loadExpenses] is
    the same closure, and every request it issues is for the page it
    captured. *)
Lemma step_keeps_memo (v : View) (o : Op) :
  keeps_auth o = true →
  memo_loadExpenses (step v o).1 = memo_loadExpenses v
  ∧ Forall (λ e, e = call_fetchExpenses (c_token (memo_loadExpenses v))
                       (c_page (memo_loadExpenses v)) PAGE_SIZE)
           (fetches (step v o).2).
Proof.
  intros Hk.
  destruct o as [ih st oh outcome|d outcome|u outcome|i outcome|t outcome];
    [| | | |done]; cbn [step].
  - unfold handleScroll. destruct (_ && _); [|by split].
    split; [apply run_on_memo|]. rewrite run_on_events.
    load_cases (memo_loadExpenses v) outcome (cells v);
      unfold events, fetches; cbn; repeat constructor.
  - split; [apply run_on_memo|]. rewrite run_on_events.
    handler_split (token v) outcome (cells v); unfold events, fetches; cbn; constructor.
  - split; [apply run_on_memo|]. rewrite run_on_events.
    handler_split (token v) outcome (cells v); unfold events, fetches; cbn; constructor.
  - split; [apply run_on_memo|]. rewrite run_on_events.
    handler_split (token v) outcome (cells v); unfold events, fetches; cbn; constructor.
Qed.

Lemma run_keeps_memo (ops : list Op) (v : View) :
  forallb keeps_auth ops = true →
  Forall (λ e, e = call_fetchExpenses (c_token (memo_loadExpenses v))
                     (c_page (memo_loadExpenses v)) PAGE_SIZE)
         (fetches (run v ops).2).
Proof.
  revert v. induction ops as [|o ops IH]; intros v Hk; [constructor|].
  cbn [run forallb] in *. apply andb_true_iff in Hk as [Ho Hk].
  destruct (step_keeps_memo v o Ho) as [Hm Hf].
  destruct (step v o) as [v1 t1]. cbn [fst snd] in *.
  specialize (IH v1 Hk). rewrite Hm in IH.
  destruct (run v1 ops) as [v2 t2]. cbn [fst snd] in *.
  unfold fetches in *. rewrite filter_app. by apply Forall_app.
Qed.

(** However many pages have been loaded, as long as the auth context does
    not change every request of the session is for page 1. *)
Lemma session_requests_page_one (t : Token) (first : Promise (list Expense))
    (ops : list Op) :
  forallb keeps_auth ops = true →
  Forall (λ e, e = call_fetchExpenses t 1 PAGE_SIZE) (fetches (session t first ops).2).
Proof.
  intros Hk. unfold session.
  assert (memo_loadExpenses (mount t first).1 = capture t initialCells
          ∧ Forall (λ e, e = call_fetchExpenses t 1 PAGE_SIZE)
                   (fetches (mount t first).2)) as [Hm Hf].
  { unfold mount, depsChanged. split; [apply run_on_memo|].
    rewrite run_on_events. cbn [cells].
    load_cases (capture t initialCells) first initialCells;
      unfold events, fetches; cbn; repeat constructor. }
  destruct (mount t first) as [v0 t0]. cbn [fst snd] in *.
  pose proof (run_keeps_memo ops v0 Hk) as H1. rewrite Hm in H1.
  destruct (run v0 ops) as [v1 t1]. cbn [fst snd] in *.
  unfold fetches in *. rewrite filter_app. by apply Forall_app.
Qed.

Lemma step_loaded_page (v : View) (o : Op) :
  live o = true →
  (loaded_page o (step v o).2 = None
   ∧ page (cells (step v o).1) = page (cells v))
  ∨ (loaded_page o (step v o).2 = Some (page (cells v))
     ∧ page (cells (step v o).1) = (page (cells v) + 1)%nat).
Proof.
  intros Hl.
  destruct o as [ih st oh outcome|d outcome|u outcome|i outcome|t outcome];
    [done| | | |]; cbn [step loaded_page].
  - left. split; [done|]. rewrite run_on_cells.
    handler_split (token v) outcome (cells v); done.
  - left. split; [done|]. rewrite run_on_cells.
    handler_split (token v) outcome (cells v); done.
  - left. split; [done|]. rewrite run_on_cells.
    handler_split (token v) outcome (cells v); done.
  - unfold depsChanged. rewrite run_on_cells, run_on_events. cbn [cells].
    load_cases (capture t (cells v)) outcome (cells v);
      unfold after, events; cbn [fst snd page capture c_page].
    + by right.
    + by left.
    + left. by destruct outcome.
    + left. by destruct outcome.
Qed.

Lemma loads_count_up (ops : list Op) (v : View) :
  forallb live ops = true →
  loads v ops = seq (page (cells v)) (length (loads v ops)).
Proof.
  revert v. induction ops as [|o ops IH]; intros v Hl; [done|].
  cbn [forallb] in Hl. apply andb_true_iff in Hl as [Ho Hl].
  cbn [loads]. specialize (IH (step v o).1 Hl).
  destruct (step_loaded_page v o Ho) as [[-> Hp] | [-> Hp]];
    rewrite Hp in IH; cbn [option_list app].
  - done.
  - rewrite IH at 1. cbn [length seq]. by rewrite Nat.add_1_r.
Qed.



(** * Further properties of the callbacks *)

(** ** More on the sort *)

Section ArraySortOrdered.
Context {A : Type} (cmp : A → A → Z).
Hypothesis cmp_total : ∀ x y, cmp x y ≤ 0 ∨ cmp y x ≤ 0.
Hypothesis cmp_trans : ∀ x y z, cmp x y ≤ 0 → cmp y z ≤ 0 → cmp x z ≤ 0.

Lemma sort_insert_front (x : A) (l : list A) :
  Forall (λ y, cmp x y ≤ 0) l → sort_insert cmp x l = x :: l.
Proof.
  destruct 1 as [|y l Hy _]; [done|]. simpl.
  apply Z.leb_le in Hy. by rewrite Hy.
Qed.

(** A sorted array is left as it is. *)
Lemma Array_sort_fixed (l : list A) :
  StronglySorted (λ a b, cmp a b ≤ 0) l → Array_sort cmp l = l.
Proof.
  induction 1 as [|x l Hl IH Hx]; [done|].
  simpl. rewrite IH. by apply sort_insert_front.
Qed.

(** Where an element lands in a sorted array. *)
Lemma sort_insert_split (x : A) (l : list A) :
  StronglySorted (λ a b, cmp a b ≤ 0) l →
  ∃ l1 l2, l = l1 ++ l2 ∧ sort_insert cmp x l = l1 ++ x :: l2
           ∧ Forall (λ y, 0 < cmp x y) l1 ∧ Forall (λ y, cmp x y ≤ 0) l2.
Proof.
  induction 1 as [|y l Hl IH Hy].
  { exists [], []. by repeat split. }
  simpl. destruct (cmp x y <=? 0) eqn:Hc.
  - apply Z.leb_le in Hc. exists [], (y :: l). repeat split; [constructor|].
    constructor; [done|]. eapply Forall_impl; [exact Hy|].
    intros z Hz. by eapply cmp_trans.
  - apply Z.leb_gt in Hc. destruct IH as (l1 & l2 & -> & -> & H1 & H2).
    exists (y :: l1), l2. repeat split; [|done]. by constructor.
Qed.

(** Filtering commutes with sorting. *)
Lemma sort_insert_filter_sorted (P : A → Prop) `{!∀ x, Decision (P x)}
    (x : A) (l : list A) :
  StronglySorted (λ a b, cmp a b ≤ 0) l →
  filter P (sort_insert cmp x l)
  = if decide (P x) then sort_insert cmp x (filter P l) else filter P l.
Proof.
  induction 1 as [|y l Hl IH Hy].
  { simpl. rewrite filter_cons, filter_nil. by destruct (decide (P x)). }
  simpl. destruct (cmp x y <=? 0) eqn:Hc.
  - apply Z.leb_le in Hc. rewrite filter_cons.
    destruct (decide (P x)); [|done].
    rewrite sort_insert_front; [done|].
    apply Forall_forall. intros z [_ Hz]%list_elem_of_filter.
    apply elem_of_cons in Hz as [->|Hz]; [done|].
    eapply cmp_trans; [exact Hc|]. by eapply Forall_forall in Hy.
  - rewrite filter_cons, IH, (filter_cons _ y).
    destruct (decide (P y)), (decide (P x)); try done.
    simpl. by rewrite Hc.
Qed.

Lemma Array_sort_filter_comm (P : A → Prop) `{!∀ x, Decision (P x)} (l : list A) :
  filter P (Array_sort cmp l) = Array_sort cmp (filter P l).
Proof.
  induction l as [|x l IH]; [done|].
  simpl. rewrite sort_insert_filter_sorted by by apply Array_sort_sorted.
  rewrite filter_cons, IH. by destruct (decide (P x)).
Qed.
End ArraySortOrdered.

Lemma byDateDesc_total (x y : Expense) : byDateDesc x y ≤ 0 ∨ byDateDesc y x ≤ 0.
Proof. unfold byDateDesc. lia. Qed.

Lemma byDateDesc_trans (x y z : Expense) :
  byDateDesc x y ≤ 0 → byDateDesc y z ≤ 0 → byDateDesc x z ≤ 0.
Proof. unfold byDateDesc. lia. Qed.

Lemma sortedDesc_cmp (l : list Expense) :
  sortedDesc l → StronglySorted (λ a b, byDateDesc a b ≤ 0) l.
Proof.
  apply StronglySorted_mono. unfold byDateDesc. intros a b. lia.
Qed.

Lemma sortedDesc_fixed (l : list Expense) :
  sortedDesc l → Array_sort byDateDesc l = l.
Proof.
  intros Hl. by apply Array_sort_fixed, sortedDesc_cmp.
Qed.

Lemma filter_all {A} (P : A → Prop) `{!∀ x, Decision (P x)} (l : list A) :
  (∀ x, x ∈ l → P x) → filter P l = l.
Proof.
  induction l as [|x l IH]; intros Hall; [done|].
  rewrite filter_cons_True by (apply Hall; left).
  f_equal. apply IH. intros y Hy. apply Hall. by right.
Qed.

(** ** Mutations without a token *)

(** X1. Without a token (or with a falsy one) [handleAddExpense],
    [handleUpdateExpense] and [handleDeleteExpense] return at once, whatever
    the API would have answered: the cells are untouched, and the one event
    is the console message; no request is sent and no toast is shown. *)
Theorem mutation_without_token_is_inert (t : Token) (s : Cells) :
  truthy t = false →
  (∀ d o, after (handleAddExpense t d o s) = s
          ∧ events (handleAddExpense t d o s) = [console_error "No auth token found"])
  ∧ (∀ u o, after (handleUpdateExpense t u o s) = s
          ∧ events (handleUpdateExpense t u o s) = [console_error "No auth token found"])
  ∧ (∀ i o, after (handleDeleteExpense t i o s) = s
          ∧ events (handleDeleteExpense t i o s) = [console_error "No auth token found"]).
Proof.
  intros Ht. destruct (handler_falsy t s Ht) as (Ha & Hu & Hd).
  split_and!; intros x o; by rewrite ?Ha, ?Hu, ?Hd.
Qed.

Lemma mutation_without_token_is_inert_witness :
  let s := {| expenses := fullPage "a" 100; isLoading := false;
              page := 2; hasMore := true |} in
  after (handleDeleteExpense (Some "") "a3" (Resolved ()) s) = s
  ∧ events (handleDeleteExpense (Some "") "a3" (Resolved ()) s)
    = [console_error "No auth token found"].
Proof.
  intros s.
  destruct (mutation_without_token_is_inert (Some "") s eq_refl) as (_ & _ & Hd).
  apply Hd.
Defined.

(** ** Updating *)

Lemma replace_no_match (e : Expense) (l : list Expense) :
  (∀ x, x ∈ l → _id x ≠ _id e) →
  (λ exp, if decide (_id exp = _id e) then e else exp) <$> l = l.
Proof.
  induction l as [|x l IH]; intros Hno; [done|].
  rewrite fmap_cons. rewrite IH by (intros y Hy; apply Hno; by right).
  destruct (decide (_id x = _id e)) as [Heq|]; [|done].
  exfalso. eapply Hno; [left|done].
Qed.

(** X2. A confirmed [handleUpdateExpense] works by [_id], with the record
    the API returned: the feed keeps its length and its [_id]s, every entry
    that has the [_id] of the returned record is now that record, and the
    entries with other [_id]s are the ones that were there. *)
Theorem update_replaces_by_id (t : Token) (u e : Expense) (s : Cells) :
  truthy t = true →
  let r := handleUpdateExpense t u (Resolved e) s in
  ids (expenses (after r)) ≡ₚ ids (expenses s)
  ∧ length (expenses (after r)) = length (expenses s)
  ∧ (∀ x, x ∈ expenses (after r) → _id x = _id e → x = e)
  ∧ (∀ x, _id x ≠ _id e → x ∈ expenses (after r) ↔ x ∈ expenses s)
  ∧ ((∃ x, x ∈ expenses s ∧ _id x = _id e) → e ∈ expenses (after r)).
Proof.
  intros Ht r. subst r. rewrite handleUpdateExpense_resolved by done.
  unfold after. cbn [fst snd expenses]. split_and!.
  - by rewrite ids_sort, ids_replace.
  - by rewrite Array_sort_perm, length_fmap.
  - intros x. rewrite Array_sort_elem_of, list_elem_of_fmap.
    intros (y & -> & Hy). by destruct (decide (_id y = _id e)).
  - intros x Hx. rewrite Array_sort_elem_of, list_elem_of_fmap. split.
    + intros (y & -> & Hy). by destruct (decide (_id y = _id e)).
    + intros Hin. exists x. split; [|done].
      by destruct (decide (_id x = _id e)).
  - intros (x & Hx & Hid). rewrite Array_sort_elem_of, list_elem_of_fmap.
    exists x. split; [|done]. by destruct (decide (_id x = _id e)).
Qed.

Lemma update_replaces_by_id_witness :
  let s := {| expenses := [mkExpense "a" "Fuel" 9; mkExpense "b" "Rent" 7;
                           mkExpense "c" "Fuel" 5];
              isLoading := false; page := 2; hasMore := true |} in
  let e := mkExpense "c" "Travel" 8 in
  let r := handleUpdateExpense (Some "tok") e (Resolved e) s in
  ids (expenses (after r)) ≡ₚ ids (expenses s)
  ∧ length (expenses (after r)) = length (expenses s)
  ∧ (∀ x, x ∈ expenses (after r) → _id x = _id e → x = e)
  ∧ (∀ x, _id x ≠ _id e → x ∈ expenses (after r) ↔ x ∈ expenses s)
  ∧ ((∃ x, x ∈ expenses s ∧ _id x = _id e) → e ∈ expenses (after r)).
Proof.
  intros s e. apply (update_replaces_by_id (Some "tok") e e s). reflexivity.
Defined.

(** X3. Updating a record whose [_id] is not in a feed sorted by date
    changes no cell; the request is sent and the ordinary toast is shown
    all the same. *)
Theorem update_unknown_id_keeps_feed (t : Token) (u e : Expense) (s : Cells) :
  truthy t = true →
  sortedDesc (expenses s) →
  (∀ x, x ∈ expenses s → _id x ≠ _id e) →
  let r := handleUpdateExpense t u (Resolved e) s in
  after r = s
  ∧ events r = [call_updateExpense u t;
                toast "Expense Updated"
                  (quoted (description e) +:+ " has been updated.") false].
Proof.
  intros Ht Hs Hno r. subst r. rewrite handleUpdateExpense_resolved by done.
  unfold after, events. cbn [fst snd]. split; [|done].
  rewrite replace_no_match, sortedDesc_fixed by done. by destruct s.
Qed.

Lemma update_unknown_id_keeps_feed_witness :
  let s := {| expenses := [mkExpense "a" "Fuel" 9; mkExpense "b" "Rent" 7;
                           mkExpense "c" "Fuel" 5];
              isLoading := false; page := 2; hasMore := true |} in
  let e := mkExpense "z" "Travel" 8 in
  after (handleUpdateExpense (Some "tok") e (Resolved e) s) = s.
Proof.
  intros s e.
  refine (proj1 (update_unknown_id_keeps_feed (Some "tok") e e s eq_refl _ _)).
  - unfold sortedDesc. cbn. repeat constructor; cbn; lia.
  - intros x Hx. cbn in Hx.
    repeat (apply elem_of_cons in Hx as [->|Hx]; [discriminate|]).
    by apply elem_of_nil in Hx.
Defined.

(** ** Adding *)

(** X4. A confirmed [handleAddExpense] puts the returned record into the
    feed and loses nothing: the new feed is a rearrangement of the record
    and the old feed.  When the old feed is sorted by date the others do not
    move at all: the record is inserted after the entries dated later than it
    and before those dated like it or earlier. *)
Theorem add_inserts_at_its_date (t : Token) (d : ExpenseData) (e : Expense)
    (s : Cells) :
  truthy t = true →
  let r := handleAddExpense t d (Resolved e) s in
  expenses (after r) ≡ₚ e :: expenses s
  ∧ (sortedDesc (expenses s) →
     ∃ l1 l2, expenses s = l1 ++ l2
              ∧ expenses (after r) = l1 ++ e :: l2
              ∧ Forall (λ x, date e < date x) l1
              ∧ Forall (λ x, date x ≤ date e) l2).
Proof.
  intros Ht r. subst r. rewrite handleAddExpense_resolved by done.
  unfold after. cbn [fst snd expenses]. split.
  - apply Array_sort_perm.
  - intros Hs. cbn [Array_sort]. rewrite sortedDesc_fixed by done.
    destruct (sort_insert_split byDateDesc byDateDesc_trans e (expenses s))
      as (l1 & l2 & H0 & H1 & H2 & H3); [by apply sortedDesc_cmp|].
    exists l1, l2. split_and!; [done|done| |].
    + eapply Forall_impl; [exact H2|]. unfold byDateDesc. intros x. simpl. lia.
    + eapply Forall_impl; [exact H3|]. unfold byDateDesc. intros x. simpl. lia.
Qed.

Lemma add_inserts_at_its_date_witness :
  let s := {| expenses := [mkExpense "a" "Fuel" 9; mkExpense "b" "Rent" 7;
                           mkExpense "c" "Fuel" 5];
              isLoading := false; page := 2; hasMore := true |} in
  let d := {| new_description := "item n"; new_amount := 575;
              new_category := "Travel"; new_date := 7 |} in
  let e := mkExpense "n" "Travel" 7 in
  let r := handleAddExpense (Some "tok") d (Resolved e) s in
  expenses (after r) ≡ₚ e :: expenses s
  ∧ (sortedDesc (expenses s) →
     ∃ l1 l2, expenses s = l1 ++ l2
              ∧ expenses (after r) = l1 ++ e :: l2
              ∧ Forall (λ x, date e < date x) l1
              ∧ Forall (λ x, date x ≤ date e) l2).
Proof.
  intros s d e. apply (add_inserts_at_its_date (Some "tok") d e s). reflexivity.
Defined.

(** X5. On a feed sorted by date that does not hold a given [_id], adding a
    record with that [_id] and then deleting it by [_id] gives back the
    cells one started from. *)
Theorem add_then_delete_restores (t : Token) (d : ExpenseData) (e : Expense)
    (s : Cells) :
  truthy t = true →
  sortedDesc (expenses s) →
  (∀ x, x ∈ expenses s → _id x ≠ _id e) →
  after (handleDeleteExpense t (_id e) (Resolved ())
           (after (handleAddExpense t d (Resolved e) s))) = s.
Proof.
  intros Ht Hs Hno.
  rewrite handleAddExpense_resolved by done. unfold after at 2. cbn [fst snd].
  rewrite handleDeleteExpense_resolved by done. unfold after. cbn [fst snd].
  cbn [expenses isLoading page hasMore].
  rewrite (Array_sort_filter_comm byDateDesc byDateDesc_total byDateDesc_trans).
  rewrite filter_cons_False by (intros H; by apply H).
  rewrite filter_all by done. rewrite sortedDesc_fixed by done.
  by destruct s.
Qed.

Lemma add_then_delete_restores_witness :
  let s := {| expenses := [mkExpense "a" "Fuel" 9; mkExpense "b" "Rent" 7;
                           mkExpense "c" "Fuel" 5];
              isLoading := false; page := 2; hasMore := true |} in
  let d := {| new_description := "item n"; new_amount := 575;
              new_category := "Travel"; new_date := 7 |} in
  let e := mkExpense "n" "Travel" 7 in
  after (handleDeleteExpense (Some "tok") (_id e) (Resolved ())
           (after (handleAddExpense (Some "tok") d (Resolved e) s))) = s.
Proof.
  intros s d e.
  apply (add_then_delete_restores (Some "tok") d e s eq_refl).
  - unfold sortedDesc. cbn. repeat constructor; cbn; lia.
  - intros x Hx. cbn in Hx.
    repeat (apply elem_of_cons in Hx as [->|Hx]; [discriminate|]).
    by apply elem_of_nil in Hx.
Defined.

(** ** Categories and the feed *)

Lemma allCategories_elem_of (c : string) (l : list Expense) :
  c ∈ allCategories l ↔ c ∈ category <$> l.
Proof.
  unfold allCategories, new_Set.
  destruct (new_Set_spec (category <$> l) [] (NoDup_nil_2)) as [_ Hm].
  rewrite Array_sort_elem_of, Hm, elem_of_nil. tauto.
Qed.

Lemma allCategories_NoDup (l : list Expense) : NoDup (allCategories l).
Proof.
  unfold allCategories, new_Set.
  destruct (new_Set_spec (category <$> l) [] (NoDup_nil_2)) as [Hn _].
  by rewrite Array_sort_perm.
Qed.

Lemma allCategories_sorted (l : list Expense) :
  StronglySorted String.le (allCategories l).
Proof. apply defaultCompare_sorted. Qed.

(** X6. The categories depend only on which category labels occur in the
    feed: two feeds with the same labels, in any order and any number, give
    the same list.  In particular re-sorting the feed never changes it. *)
Theorem categories_ignore_order (l1 l2 : list Expense) :
  (∀ c, c ∈ category <$> l1 ↔ c ∈ category <$> l2) →
  allCategories l1 = allCategories l2.
Proof.
  intros Hsame.
  apply (StronglySorted_unique String.le); try apply allCategories_sorted.
  apply NoDup_Permutation; try apply allCategories_NoDup.
  intros c. by rewrite !allCategories_elem_of.
Qed.

Lemma categories_ignore_order_witness :
  let l := [mkExpense "1" "Groceries" 3; mkExpense "2" "Dining Out" 5;
            mkExpense "3" "Groceries" 1] in
  allCategories l = allCategories (Array_sort byDateDesc l).
Proof.
  intros l. apply categories_ignore_order.
  intros c. by rewrite Array_sort_perm.
Defined.

(** X7. After a confirmed [handleAddExpense] the categories are those there
    were together with the category of the new record. *)
Theorem categories_after_add (t : Token) (d : ExpenseData) (e : Expense)
    (s : Cells) :
  truthy t = true →
  ∀ c, c ∈ allCategories (expenses (after (handleAddExpense t d (Resolved e) s)))
       ↔ c = category e ∨ c ∈ allCategories (expenses s).
Proof.
  intros Ht c. rewrite handleAddExpense_resolved by done.
  unfold after. cbn [fst snd expenses].
  rewrite !allCategories_elem_of, Array_sort_perm, fmap_cons, elem_of_cons. done.
Qed.

Lemma categories_after_add_witness :
  let s := {| expenses := [mkExpense "a" "Fuel" 9; mkExpense "b" "Rent" 7];
              isLoading := false; page := 2; hasMore := true |} in
  let d := {| new_description := "item n"; new_amount := 575;
              new_category := "Dining Out"; new_date := 7 |} in
  let e := mkExpense "n" "Dining Out" 7 in
  "Dining Out"
    ∈ allCategories (expenses (after (handleAddExpense (Some "tok") d (Resolved e) s)))
  ↔ "Dining Out" = category e ∨ "Dining Out" ∈ allCategories (expenses s).
Proof.
  intros s d e. apply (categories_after_add (Some "tok") d e s). reflexivity.
Defined.

Section SortedSublist.
Context {A : Type} (R : relation A) `{!PartialOrder R}.

(** Of two sorted lists without repetition, the one whose elements all
    occur in the other is a sublist of it. *)
Lemma sorted_subseteq_sublist (l1 l2 : list A) :
  StronglySorted R l1 → NoDup l1 → StronglySorted R l2 → NoDup l2 →
  l1 ⊆ l2 → l1 `sublist_of` l2.
Proof.
  revert l1. induction l2 as [|y l2 IH]; intros l1 S1 N1 S2 N2 Hsub.
  { destruct l1 as [|x l1]; [constructor|].
    specialize (Hsub x). rewrite elem_of_nil in Hsub. destruct Hsub. by left. }
  destruct l1 as [|x l1]; [apply sublist_nil_l|].
  apply StronglySorted_inv in S1 as [S1 Hx].
  apply StronglySorted_inv in S2 as [S2 Hy].
  apply NoDup_cons in N1 as [Nx N1]. apply NoDup_cons in N2 as [Ny N2].
  assert (x ∈ y :: l2) as Hxin by (apply Hsub; left).
  apply elem_of_cons in Hxin as [->|Hxin].
  - apply sublist_skip, IH; try done.
    intros z Hz. assert (z ∈ y :: l2) as Hz' by (apply Hsub; by right).
    apply elem_of_cons in Hz' as [->|Hz']; [done|done].
  - apply sublist_cons, IH; try done.
    + by constructor.
    + by apply NoDup_cons.
    + intros z Hz. assert (z ∈ y :: l2) as Hz' by by apply Hsub.
      apply elem_of_cons in Hz' as [->|Hz']; [|done].
      exfalso. apply Ny.
      assert (R y x) as Hyx by by eapply Forall_forall in Hy.
      apply elem_of_cons in Hz as [->|Hz]; [done|].
      assert (R x y) as Hxy by by eapply Forall_forall in Hx.
      by rewrite (anti_symm R y x Hyx Hxy).
Qed.
End SortedSublist.

(** X8. A confirmed [handleDeleteExpense] never brings in a category: the
    categories afterwards are, in the same order, among those before. *)
Theorem categories_after_delete (t : Token) (i : string) (s : Cells) :
  truthy t = true →
  allCategories (expenses (after (handleDeleteExpense t i (Resolved ()) s)))
    `sublist_of` allCategories (expenses s).
Proof.
  intros Ht. rewrite handleDeleteExpense_resolved by done.
  unfold after. cbn [fst snd expenses].
  apply (sorted_subseteq_sublist String.le);
    try apply allCategories_sorted; try apply allCategories_NoDup.
  intros c. rewrite !allCategories_elem_of, !list_elem_of_fmap.
  intros (e & -> & [_ He]%list_elem_of_filter). eauto.
Qed.

Lemma categories_after_delete_witness :
  let s := {| expenses := [mkExpense "a" "Fuel" 9; mkExpense "b" "Rent" 7;
                           mkExpense "c" "Fuel" 5];
              isLoading := false; page := 2; hasMore := true |} in
  allCategories (expenses (after (handleDeleteExpense (Some "tok") "b" (Resolved ()) s)))
    `sublist_of` allCategories (expenses s).
Proof.
  intros s. apply (categories_after_delete (Some "tok") "b" s). reflexivity.
Defined.

(** ** Page loads *)

(** X9. A page that arrives is merged without loss: the new feed is a
    rearrangement of the old feed followed by the page, so it is longer by
    the length of the page.  [page] grows by one, [isLoading] is cleared,
    and [hasMore] stays true only if it was true and the page is full; a
    full page never turns [hasMore] back on. *)
Theorem loaded_page_is_merged (c : Captured) (data : list Expense) (s : Cells) :
  truthy (c_token c) = true → c_hasMore c = true →
  let r := loadExpenses c (Resolved data) s in
  expenses (after r) ≡ₚ expenses s ++ data
  ∧ length (expenses (after r)) = (length (expenses s) + length data)%nat
  ∧ page (after r) = (page s + 1)%nat
  ∧ isLoading (after r) = false
  ∧ hasMore (after r) = hasMore s && (PAGE_SIZE <=? length data)%nat.
Proof.
  intros Ht Hm r. subst r. rewrite loadExpenses_resolved by done.
  unfold after. cbn [fst snd expenses page isLoading hasMore]. split_and!; try done.
  - apply Array_sort_perm.
  - by rewrite Array_sort_perm, length_app.
  - rewrite Nat.ltb_antisym.
    by destruct (PAGE_SIZE <=? length data)%nat, (hasMore s).
Qed.

Lemma loaded_page_is_merged_witness :
  let s := {| expenses := fullPage "a" 100; isLoading := false;
              page := 2; hasMore := true |} in
  let c := capture (Some "tok") s in
  let data := [mkExpense "b0" "Fuel" 50; mkExpense "b1" "Rent" 140] in
  let r := loadExpenses c (Resolved data) s in
  expenses (after r) ≡ₚ expenses s ++ data
  ∧ length (expenses (after r)) = (length (expenses s) + length data)%nat
  ∧ page (after r) = (page s + 1)%nat
  ∧ isLoading (after r) = false
  ∧ hasMore (after r) = hasMore s && (PAGE_SIZE <=? length data)%nat.
Proof.
  intros s c data. apply (loaded_page_is_merged c data s); reflexivity.
Defined.

(** X10. Mounting with a token, when the first page arrives: one request,
    for page 1 of [PAGE_SIZE]; the feed is the page sorted by date, latest
    first; [page] is 2; [isLoading] is cleared; [hasMore] tells whether the
    page was full. *)
Theorem mount_with_first_page (t : Token) (data : list Expense) :
  truthy t = true →
  let r := mount t (Resolved data) in
  r.2 = [call_fetchExpenses t 1 PAGE_SIZE]
  ∧ expenses (cells r.1) ≡ₚ data
  ∧ sortedDesc (expenses (cells r.1))
  ∧ page (cells r.1) = 2%nat
  ∧ isLoading (cells r.1) = false
  ∧ hasMore (cells r.1) = (PAGE_SIZE <=? length data)%nat
  ∧ token r.1 = t.
Proof.
  intros Ht r. subst r. unfold mount, depsChanged.
  rewrite run_on_events, run_on_cells. cbn [cells].
  destruct (run_on_memo
    {| cells := initialCells; token := t;
       memo_loadExpenses := capture t initialCells |}
    (loadExpenses (capture t initialCells) (Resolved data))) as [_ ->].
  rewrite loadExpenses_resolved by done.
  unfold after, events. cbn [fst snd expenses page isLoading hasMore token initialCells].
  split_and!; try done.
  - rewrite Array_sort_perm. done.
  - apply sortedDesc_sort.
  - rewrite Nat.ltb_antisym.
    by destruct (PAGE_SIZE <=? length data)%nat.
Qed.

Lemma mount_with_first_page_witness :
  let r := mount (Some "tok") (Resolved (fullPage "a" 100)) in
  r.2 = [call_fetchExpenses (Some "tok") 1 PAGE_SIZE]
  ∧ expenses (cells r.1) ≡ₚ fullPage "a" 100
  ∧ sortedDesc (expenses (cells r.1))
  ∧ page (cells r.1) = 2%nat
  ∧ isLoading (cells r.1) = false
  ∧ hasMore (cells r.1) = (PAGE_SIZE <=? length (fullPage "a" 100))%nat
  ∧ token r.1 = Some "tok".
Proof.
  apply (mount_with_first_page (Some "tok") (fullPage "a" 100)). reflexivity.
Defined.

(** ** Invariants of sessions *)

(** Induction over a session: a relation between the view and the events so
    far that holds after the mount and is kept by every step holds at the
    end. *)
Lemma session_ind (J : View → list Event → Prop) :
  (∀ t first, J (mount t first).1 (mount t first).2) →
  (∀ v tr o, J v tr → J (step v o).1 (tr ++ (step v o).2)) →
  ∀ t first ops, J (session t first ops).1 (session t first ops).2.
Proof.
  intros Hmount Hstep t first ops. unfold session.
  specialize (Hmount t first). destruct (mount t first) as [v0 t0].
  cbn [fst snd] in Hmount.
  assert (∀ v tr, J v tr → J (run v ops).1 (tr ++ (run v ops).2)) as Hrun.
  { induction ops as [|o ops IH]; intros v tr Hv; cbn [run].
    - by rewrite app_nil_r.
    - specialize (Hstep v tr o Hv). destruct (step v o) as [v1 t1].
      cbn [fst snd] in Hstep. specialize (IH v1 (tr ++ t1) Hstep).
      destruct (run v1 ops) as [v2 t2]. cbn [fst snd] in *.
      by rewrite app_assoc. }
  specialize (Hrun v0 t0 Hmount). by destruct (run v0 ops) as [v1 t1].
Qed.

(** How [loadExpenses] ends when its request is rejected, or when it sends
    none. *)
Lemma loadExpenses_rejected_frame (c : Captured) (s : Cells) :
  let r := loadExpenses c Rejected s in
  expenses (after r) = expenses s ∧ page (after r) = page s
  ∧ hasMore (after r) = hasMore s.
Proof.
  destruct (truthy (c_token c)) eqn:Ht; [destruct (c_hasMore c) eqn:Hm|].
  - by rewrite loadExpenses_rejected.
  - by rewrite loadExpenses_exhausted.
  - by rewrite loadExpenses_falsy.
Qed.

Lemma step_isLoading (v : View) (o : Op) :
  isLoading (cells v) = false → isLoading (cells (step v o).1) = false.
Proof.
  intros Hl.
  destruct o as [ih st oh outcome|d outcome|u outcome|i outcome|t outcome];
    cbn [step].
  - unfold handleScroll. destruct (_ && _); [|done]. rewrite run_on_cells.
    load_cases (memo_loadExpenses v) outcome (cells v); done.
  - rewrite run_on_cells. handler_split (token v) outcome (cells v); done.
  - rewrite run_on_cells. handler_split (token v) outcome (cells v); done.
  - rewrite run_on_cells. handler_split (token v) outcome (cells v); done.
  - unfold depsChanged. rewrite run_on_cells. cbn [cells].
    load_cases (capture t (cells v)) outcome (cells v); done.
Qed.

Lemma session_idle (t : Token) (first : Promise (list Expense)) (ops : list Op) :
  isLoading (cells (session t first ops).1) = false.
Proof.
  apply (session_ind (λ v _, isLoading (cells v) = false)).
  - intros t' first'. unfold mount, depsChanged. rewrite run_on_cells. cbn [cells].
    load_cases (capture t' initialCells) first' initialCells; done.
  - intros v _ o. apply step_isLoading.
Qed.

(** X11. Between callbacks [isLoading] is false: after the mount and after
    every operation of a session, however its request ended and with or
    without a token, the loading flag has been cleared. *)
Theorem session_never_left_loading (t : Token) (first : Promise (list Expense))
    (ops : list Op) :
  isLoading (cells (session t first ops).1) = false.
Proof. apply session_idle. Qed.

(** What a step can emit. *)
Lemma step_events (v : View) (o : Op) :
  (step v o).2 = []
  ∨ (∃ w, (step v o).2 = [console_error w])
  ∨ (∃ t p, truthy t = true
       ∧ ((step v o).2 = [call_fetchExpenses t p PAGE_SIZE]
          ∨ (step v o).2 = [call_fetchExpenses t p PAGE_SIZE;
                            console_error "Failed to fetch expenses:";
                            call_logout; router_push "/login"]))
  ∨ (∃ rq w1 w2 b, (∃ t, request_token rq = Some t ∧ truthy t = true)
       ∧ is_fetch rq = false ∧ is_signout rq = false
       ∧ ((step v o).2 = [rq; toast w1 w2 b]
          ∨ (step v o).2 = [rq; console_error w1; toast "Error" w2 true])).
Proof.
  destruct o as [ih st oh outcome|d outcome|u outcome|i outcome|t outcome];
    cbn [step].
  - unfold handleScroll. destruct (_ && _); [|by left]. rewrite run_on_events.
    load_cases (memo_loadExpenses v) outcome (cells v); unfold events; cbn [snd];
      [right; right; left|right; right; left|by left|by left]; eauto 10.
  - rewrite run_on_events.
    handler_split (token v) outcome (cells v); unfold events; cbn [snd];
      [right; left; eauto | right; right; right | right; right; right].
    + eexists _, _, _, true. split_and!; [| | |right; done]; eauto.
    + eexists _, _, _, _. split_and!; [| | |left; done]; eauto.
  - rewrite run_on_events.
    handler_split (token v) outcome (cells v); unfold events; cbn [snd];
      [right; left; eauto | right; right; right | right; right; right].
    + eexists _, _, _, true. split_and!; [| | |right; done]; eauto.
    + eexists _, _, _, _. split_and!; [| | |left; done]; eauto.
  - rewrite run_on_events.
    handler_split (token v) outcome (cells v); unfold events; cbn [snd];
      [right; left; eauto | right; right; right | right; right; right].
    + eexists _, _, _, true. split_and!; [| | |right; done]; eauto.
    + eexists _, _, _, _. split_and!; [| | |left; done]; eauto.
  - unfold depsChanged. rewrite run_on_events. cbn [cells].
    load_cases (capture t (cells v)) outcome (cells v); unfold events; cbn [snd];
      [right; right; left|right; right; left|by left|by left]; eauto 10.
Qed.

(** X12. No request is ever sent with a missing or empty token: every call
    of [fetchExpenses], [addExpense], [updateExpense] and [deleteExpense] in
    a session carries a truthy token. *)
Theorem requests_carry_a_token (t : Token) (first : Promise (list Expense))
    (ops : list Op) :
  Forall (λ e, ∀ t', request_token e = Some t' → truthy t' = true)
         (session t first ops).2.
Proof.
  assert (∀ v o, Forall (λ e, ∀ t', request_token e = Some t' → truthy t' = true)
                        (step v o).2) as Hstep.
  { intros v o.
    destruct (step_events v o)
      as [-> | [(w & ->) | [(t1 & p & Ht1 & [-> | ->])
                            | (rq & w1 & w2 & b & (t1 & Hrq & Ht1) & _ & _ & [-> | ->])]]];
      repeat constructor; cbn; try congruence; intros t' [= <-]; done. }
  apply (session_ind
    (λ _ tr, Forall (λ e, ∀ t', request_token e = Some t' → truthy t' = true) tr)).
  - intros t' first'. apply (Hstep _ (AuthUpdate t' first')).
  - intros v tr o Htr. apply Forall_app. split; [done|apply Hstep].
Qed.

Lemma step_signouts (v : View) (o : Op) :
  signouts (step v o).2 = []
  ∨ (signouts (step v o).2 = signout_pair ∧ length (fetches (step v o).2) = 1%nat).
Proof.
  destruct (step_events v o)
    as [-> | [(w & ->) | [(t1 & p & Ht1 & [-> | ->])
                          | (rq & w1 & w2 & b & _ & Hf & Hs & [-> | ->])]]];
    try (by left); try (by right).
  - left. unfold signouts. rewrite filter_cons_False by (by rewrite Hs). done.
  - left. unfold signouts. rewrite filter_cons_False by (by rewrite Hs). done.
Qed.

(** X13. Signing out belongs to failed page loads only.  A step emits
    [logout(); router.push('/login')], once and as that pair, exactly when
    its request for a page was sent and rejected, and emits neither of them
    otherwise; [handleAddExpense], [handleUpdateExpense] and
    [handleDeleteExpense] never emit either, nor request a page, whatever
    the outcome and the token.  Over a session these events are therefore
    that pair some number of times over, no more often than pages were
    requested. *)
Theorem signouts_come_from_page_loads :
  (∀ v o, signouts (step v o).2
          = if op_rejected o && existsb is_fetch (step v o).2
            then signout_pair else [])
  ∧ (∀ v d u i (oa : Promise Expense) (ou : Promise Expense) (od : Promise unit),
       signouts (step v (Add d oa)).2 = [] ∧ fetches (step v (Add d oa)).2 = []
       ∧ signouts (step v (Update u ou)).2 = [] ∧ fetches (step v (Update u ou)).2 = []
       ∧ signouts (step v (Delete i od)).2 = [] ∧ fetches (step v (Delete i od)).2 = [])
  ∧ (∀ t first ops,
       ∃ n, (n ≤ length (fetches (session t first ops).2))%nat
            ∧ signouts (session t first ops).2 = mjoin (replicate n signout_pair)).
Proof.
  split_and!.
  - intros v o.
    destruct o as [ih st oh outcome|d outcome|u outcome|i outcome|t outcome];
      cbn [step].
    + unfold handleScroll. destruct (_ && _); [|by rewrite andb_false_r].
      rewrite run_on_events.
      load_cases (memo_loadExpenses v) outcome (cells v);
        try done; by destruct outcome.
    + rewrite run_on_events.
      handler_split (token v) outcome (cells v); try done; by destruct outcome.
    + rewrite run_on_events.
      handler_split (token v) outcome (cells v); try done; by destruct outcome.
    + rewrite run_on_events.
      handler_split (token v) outcome (cells v); try done; by destruct outcome.
    + unfold depsChanged. rewrite run_on_events. cbn [cells].
      load_cases (capture t (cells v)) outcome (cells v);
        try done; by destruct outcome.
  - intros v d u i oa ou od. cbn [step]. rewrite !run_on_events. split_and!.
    + handler_split (token v) oa (cells v); done.
    + handler_split (token v) oa (cells v); done.
    + handler_split (token v) ou (cells v); done.
    + handler_split (token v) ou (cells v); done.
    + handler_split (token v) od (cells v); done.
    + handler_split (token v) od (cells v); done.
  - intros t first ops.
    assert (∀ v o tr n,
      (n ≤ length (fetches tr))%nat → signouts tr = mjoin (replicate n signout_pair) →
      ∃ n', (n' ≤ length (fetches (tr ++ (step v o).2)))%nat
            ∧ signouts (tr ++ (step v o).2) = mjoin (replicate n' signout_pair)) as Hstep.
    { intros v o tr n Hn Htr.
      assert (length (fetches (tr ++ (step v o).2))
              = (length (fetches tr) + length (fetches (step v o).2))%nat) as ->.
      { unfold fetches. by rewrite filter_app, length_app. }
      assert (signouts (tr ++ (step v o).2) = signouts tr ++ signouts (step v o).2)
        as -> by apply filter_app.
      rewrite Htr.
      destruct (step_signouts v o) as [-> | [-> ->]].
      - exists n. rewrite app_nil_r. split; [lia|done].
      - exists (n + 1)%nat. rewrite replicate_add, join_app.
        split; [lia|reflexivity]. }
    apply (session_ind (λ _ tr, ∃ n, (n ≤ length (fetches tr))%nat
                                     ∧ signouts tr = mjoin (replicate n signout_pair))).
    + intros t' first'.
      destruct (Hstep {| cells := initialCells; token := t';
                         memo_loadExpenses := capture t' initialCells |}
                      (AuthUpdate t' first') [] 0%nat) as (n & Hn & Hs); [done|done|].
      by exists n.
    + intros v tr o (n & Hn & Hs). by eapply Hstep.
Qed.

Lemma step_page (v : View) (o : Op) :
  (page (cells v) ≤ page (cells (step v o).1))%nat
  ∧ (page (cells (step v o).1) ≤ page (cells v) + length (fetches (step v o).2))%nat
  ∧ (hasMore (cells (step v o).1) = false →
     hasMore (cells v) = false
     ∨ page (cells (step v o).1) = (page (cells v) + 1)%nat).
Proof.
  destruct o as [ih st oh outcome|d outcome|u outcome|i outcome|t outcome];
    cbn [step].
  - unfold handleScroll.
    destruct (_ && _); [|cbn [fst snd]; split_and!; [lia|lia|by left]].
    rewrite run_on_cells, run_on_events.
    load_cases (memo_loadExpenses v) outcome (cells v);
      unfold after, events, fetches; cbn; split_and!; try lia; auto.
  - rewrite run_on_cells, run_on_events.
    handler_split (token v) outcome (cells v);
      unfold after, events, fetches; cbn; split_and!; try lia; auto.
  - rewrite run_on_cells, run_on_events.
    handler_split (token v) outcome (cells v);
      unfold after, events, fetches; cbn; split_and!; try lia; auto.
  - rewrite run_on_cells, run_on_events.
    handler_split (token v) outcome (cells v);
      unfold after, events, fetches; cbn; split_and!; try lia; auto.
  - unfold depsChanged. rewrite run_on_cells, run_on_events. cbn [cells].
    load_cases (capture t (cells v)) outcome (cells v);
      unfold after, events, fetches; cbn; split_and!; try lia; auto.
Qed.

(** X14. [page] starts at 1 and only page requests move it: at any point of
    a session it is at least 1 and at most 1 plus the number of pages
    requested so far; and once [hasMore] is false at least one page has been
    loaded, so [page] is 2 or more. *)
Theorem page_counts_loaded_pages (t : Token) (first : Promise (list Expense))
    (ops : list Op) :
  let r := session t first ops in
  (1 ≤ page (cells r.1))%nat
  ∧ (page (cells r.1) ≤ 1 + length (fetches r.2))%nat
  ∧ (hasMore (cells r.1) = false → (2 ≤ page (cells r.1))%nat).
Proof.
  assert (∀ v o tr,
    (1 ≤ page (cells v))%nat ∧ (page (cells v) ≤ 1 + length (fetches tr))%nat
      ∧ (hasMore (cells v) = false → (2 ≤ page (cells v))%nat) →
    (1 ≤ page (cells (step v o).1))%nat
      ∧ (page (cells (step v o).1) ≤ 1 + length (fetches (tr ++ (step v o).2)))%nat
      ∧ (hasMore (cells (step v o).1) = false → (2 ≤ page (cells (step v o).1))%nat))
    as Hstep.
  { intros v o tr (H1 & H2 & H3). destruct (step_page v o) as (P1 & P2 & P3).
    unfold fetches in *. rewrite filter_app, length_app.
    split_and!; [lia|lia|]. intros Hh. destruct (P3 Hh) as [Hv|Hv]; [|lia].
    specialize (H3 Hv). lia. }
  apply (session_ind (λ v tr,
    (1 ≤ page (cells v))%nat ∧ (page (cells v) ≤ 1 + length (fetches tr))%nat
    ∧ (hasMore (cells v) = false → (2 ≤ page (cells v))%nat))).
  - intros t' first'.
    apply (Hstep {| cells := initialCells; token := t';
                    memo_loadExpenses := capture t' initialCells |}
                 (AuthUpdate t' first') []).
    cbn. split_and!; [lia|lia|done].
  - intros v tr o. apply Hstep.
Qed.

(** ** Rejected requests *)

(** X15. An operation whose request is rejected, or that sends none, leaves
    the feed, [page] and [hasMore] as they were.  This covers the failed
    page load as well: signing out does not empty the feed. *)
Theorem rejected_request_keeps_feed (v : View) (o : Op) :
  op_rejected o = true →
  expenses (cells (step v o).1) = expenses (cells v)
  ∧ page (cells (step v o).1) = page (cells v)
  ∧ hasMore (cells (step v o).1) = hasMore (cells v).
Proof.
  intros Hr.
  destruct o as [ih st oh [data|]|d [e|]|u [e|]|i [[]|]|t [data|]];
    try discriminate Hr; cbn [step].
  - unfold handleScroll. destruct (_ && _); [|done].
    rewrite run_on_cells. apply loadExpenses_rejected_frame.
  - rewrite run_on_cells.
    destruct (truthy (token v)) eqn:Ht.
    + by rewrite (proj1 (handler_rejected (token v) (cells v) Ht)).
    + by rewrite (proj1 (handler_falsy (token v) (cells v) Ht)).
  - rewrite run_on_cells.
    destruct (truthy (token v)) eqn:Ht.
    + by rewrite (proj1 (proj2 (handler_rejected (token v) (cells v) Ht))).
    + by rewrite (proj1 (proj2 (handler_falsy (token v) (cells v) Ht))).
  - rewrite run_on_cells.
    destruct (truthy (token v)) eqn:Ht.
    + by rewrite (proj2 (proj2 (handler_rejected (token v) (cells v) Ht))).
    + by rewrite (proj2 (proj2 (handler_falsy (token v) (cells v) Ht))).
  - unfold depsChanged. rewrite run_on_cells. cbn [cells].
    apply loadExpenses_rejected_frame.
Qed.

Lemma rejected_request_keeps_feed_witness :
  let v := (mount (Some "tok") (Resolved (fullPage "a" 100))).1 in
  let o := Scroll 800 1200 2000 Rejected in
  expenses (cells (step v o).1) = expenses (cells v)
  ∧ page (cells (step v o).1) = page (cells v)
  ∧ hasMore (cells (step v o).1) = hasMore (cells v).
Proof.
  intros v o. apply (rejected_request_keeps_feed v o). reflexivity.
Defined.

(** ** Deleting, again *)

(** X16. Deleting an [_id] a second time changes nothing more, and two
    deletions give the same feed in either order. *)
Theorem deletions_compose (t : Token) (i j : string) (s : Cells) :
  truthy t = true →
  let del k s' := after (handleDeleteExpense t k (Resolved ()) s') in
  del i (del i s) = del i s
  ∧ del i (del j s) = del j (del i s).
Proof.
  intros Ht del. subst del. cbn beta.
  rewrite !handleDeleteExpense_resolved by done. unfold after. cbn [fst snd].
  rewrite ?handleDeleteExpense_resolved by done.
  cbn [fst snd expenses isLoading page hasMore].
  rewrite !list_filter_filter. split; f_equal.
  - apply list_filter_iff. tauto.
  - apply list_filter_iff. tauto.
Qed.

Lemma deletions_compose_witness :
  let s := {| expenses := [mkExpense "a" "Fuel" 9; mkExpense "b" "Rent" 7;
                           mkExpense "c" "Fuel" 5];
              isLoading := false; page := 2; hasMore := true |} in
  let del k s' := after (handleDeleteExpense (Some "tok") k (Resolved ()) s') in
  del "a" (del "a" s) = del "a" s
  ∧ del "a" (del "c" s) = del "c" (del "a" s).
Proof.
  intros s. apply (deletions_compose (Some "tok") "a" "c" s). reflexivity.
Defined.

(** X17. The toast of a confirmed deletion quotes the description of the
    first entry of the feed that has the given [_id], as the feed was when
    the handler was called. *)
Theorem delete_toast_names_first_match (t : Token) (i : string) (s : Cells)
    (l1 l2 : list Expense) (x : Expense) :
  truthy t = true →
  expenses s = l1 ++ x :: l2 →
  Forall (λ e, _id e ≠ i) l1 →
  _id x = i →
  events (handleDeleteExpense t i (Resolved ()) s)
  = [call_deleteExpense i t;
     toast "Expense Deleted" (quoted (description x) +:+ " has been deleted.") false].
Proof.
  intros Ht Hs Hl1 Hx. rewrite handleDeleteExpense_resolved by done.
  unfold events. cbn [snd]. do 3 f_equal.
  assert (list_find (λ e, _id e = i) (expenses s) = Some (length l1, x)) as ->; [|done].
  apply list_find_Some. rewrite Hs. split_and!.
  - by rewrite list_lookup_middle.
  - done.
  - intros k y Hk Hlt Hy. rewrite lookup_app_l in Hk by done.
    eapply Forall_lookup_1 in Hl1; [|exact Hk]. done.
Qed.

Lemma delete_toast_names_first_match_witness :
  let s := {| expenses := [mkExpense "a" "Fuel" 9; mkExpense "b" "Rent" 7;
                           mkExpense "c" "Fuel" 5];
              isLoading := false; page := 2; hasMore := true |} in
  events (handleDeleteExpense (Some "tok") "b" (Resolved ()) s)
  = [call_deleteExpense "b" (Some "tok");
     toast "Expense Deleted" (quoted "item b" +:+ " has been deleted.") false].
Proof.
  intros s.
  apply (delete_toast_names_first_match (Some "tok") "b" s
           [mkExpense "a" "Fuel" 9] [mkExpense "c" "Fuel" 5] (mkExpense "b" "Rent" 7));
    [reflexivity | reflexivity | | reflexivity].
  repeat constructor. discriminate.
Defined.

(** ** The memoised callback and the effect *)

(** X18. As long as the auth context does not change, every page request of
    a session (the one of the mount effect and those of [handleScroll]) is
    [fetchExpenses(token, 1, PAGE_SIZE)]: the memoised [loadExpenses] keeps
    reading the [page] of the first render. *)
Theorem scroll_loads_request_page_one (t : Token) (first : Promise (list Expense))
    (ops : list Op) :
  forallb keeps_auth ops = true →
  Forall (λ e, e = call_fetchExpenses t 1 PAGE_SIZE) (fetches (session t first ops).2).
Proof. apply session_requests_page_one. Qed.

Lemma scroll_loads_request_page_one_witness :
  Forall (λ e, e = call_fetchExpenses (Some "tok") 1 PAGE_SIZE)
    (fetches (session (Some "tok") (Resolved (fullPage "a" 100))
       [Scroll 800 1200 2000 (Resolved (fullPage "b" 50));
        Delete "a1" (Resolved ());
        Scroll 900 2500 3400 (Resolved [mkExpense "c0" "Fuel" 1])]).2).
Proof.
  apply scroll_loads_request_page_one. reflexivity.
Defined.

(** X19. When a dependency of [loadExpenses] changes, the callback is
    rebuilt and the effect calls it at once.  If the new token is truthy and
    [hasMore] is true it requests the current [page] with the new token;
    if [hasMore] is false it requests nothing.  Either way the callback now
    holds the new token and the [page] and [hasMore] of that render. *)
Theorem auth_change_reloads_current_page (v : View) (t : Token)
    (outcome : Promise (list Expense)) :
  truthy t = true →
  let r := step v (AuthUpdate t outcome) in
  fetches r.2 = (if hasMore (cells v)
                 then [call_fetchExpenses t (page (cells v)) PAGE_SIZE] else [])
  ∧ memo_loadExpenses r.1 = capture t (cells v)
  ∧ token r.1 = t.
Proof.
  intros Ht r. subst r. cbn [step]. unfold depsChanged.
  match goal with
  | |- context [run_on ?w ?m] => destruct (run_on_memo w m) as [-> ->]
  end.
  rewrite run_on_events. cbn [cells token memo_loadExpenses].
  split; [|done].
  load_cases (capture t (cells v)) outcome (cells v);
    cbn [capture c_token c_hasMore c_page] in *; try congruence;
    rewrite Hm; done.
Qed.

Lemma auth_change_reloads_current_page_witness :
  let v := (run (mount (Some "tok") (Resolved (fullPage "a" 100))).1
              [Scroll 800 1200 2000 (Resolved (fullPage "b" 50))]).1 in
  let r := step v (AuthUpdate (Some "tok2") (Resolved (fullPage "c" 20))) in
  fetches r.2 = (if hasMore (cells v)
                 then [call_fetchExpenses (Some "tok2") (page (cells v)) PAGE_SIZE]
                 else [])
  ∧ memo_loadExpenses r.1 = capture (Some "tok2") (cells v)
  ∧ token r.1 = Some "tok2".
Proof.
  intros v. apply (auth_change_reloads_current_page v (Some "tok2")). reflexivity.
Defined.

(** X20. [handleScroll] and the memoised [loadExpenses] agree on when to
    load.  In every session the callback holds the current token, and holds
    [hasMore] true whenever [hasMore] is true.  So wherever that is the
    case, a call of [handleScroll] (the component itself makes none) within
    100 of the bottom, with [isLoading] false, [hasMore] true and a token,
    sends exactly one page request, for the captured page; and a call
    further from the bottom, or with [isLoading] true, or with [hasMore]
    false, does nothing at all. *)
Theorem scroll_at_bottom_loads :
  (∀ t first ops, memo_agrees (session t first ops).1)
  ∧ (∀ v ih st oh outcome,
       memo_agrees v →
       (ih + st >=? oh - 100) = true →
       isLoading (cells v) = false →
       hasMore (cells v) = true →
       truthy (token v) = true →
       fetches (handleScroll ih st oh outcome v).2
       = [call_fetchExpenses (token v) (c_page (memo_loadExpenses v)) PAGE_SIZE])
  ∧ (∀ v ih st oh outcome,
       (ih + st >=? oh - 100) = false ∨ isLoading (cells v) = true
         ∨ hasMore (cells v) = false →
       handleScroll ih st oh outcome v = (v, [])).
Proof.
  split_and!.
  - apply session_memo_agrees.
  - intros v ih st oh outcome [Hct Hcm] Hnear Hidle Hmore Htok.
    specialize (Hcm Hmore). rewrite <- Hct in *.
    unfold handleScroll. rewrite Hnear, Hidle, Hmore. cbn [negb andb].
    rewrite run_on_events.
    load_cases (memo_loadExpenses v) outcome (cells v); try congruence; done.
  - intros v ih st oh outcome [H | [H | H]]; unfold handleScroll; rewrite H.
    + done.
    + by rewrite andb_false_r.
    + by rewrite andb_false_r.
Qed.

Lemma scroll_at_bottom_loads_witness :
  let v := (session (Some "tok") (Resolved (fullPage "a" 100))
              [Delete "a1" (Resolved ())]).1 in
  fetches (handleScroll 800 1200 2000 (Resolved (fullPage "b" 50)) v).2
  = [call_fetchExpenses (token v) (c_page (memo_loadExpenses v)) PAGE_SIZE].
Proof.
  intros v.
  apply (proj1 (proj2 scroll_at_bottom_loads) v 800 1200 2000);
    [ apply (proj1 scroll_at_bottom_loads) | reflexivity..].
Defined.

Lemma page_counts_loaded_pages_witness :
  let r := session (Some "tok") (Resolved (fullPage "a" 100))
             [Scroll 800 1200 2000 (Resolved [mkExpense "b0" "Fuel" 50]);
              Scroll 800 1200 2000 (Resolved (fullPage "c" 20))] in
  (1 ≤ page (cells r.1))%nat
  ∧ (page (cells r.1) ≤ 1 + length (fetches r.2))%nat
  ∧ (hasMore (cells r.1) = false → (2 ≤ page (cells r.1))%nat).
Proof.
  apply (page_counts_loaded_pages (Some "tok") (Resolved (fullPage "a" 100))).
Defined.
